(** * tidb-operator: the watch controller, the tidb reconciler and the job helpers

    A shallow embedding of
    - [garbagecollection/watcher.go]  (the watch controller),
    - the operator's tidb role file   ([upgrade], [waitForOk], [reconcileTidbs], [checkStatus]),
    - [pkg/util/k8sutil/job.go]       ([CreateAndWaitJob], [DeleteJob]),
    followed by the properties of the specification that concern them.

    Conventions.
    - A Go [int] and a [time.Duration] are 64-bit: they are values of [Z] and
      the arithmetic that can overflow is wrapped explicitly ([wrap64]).
    - A Go [error] is a message; [nil] is [None].
    - Go maps are [gmap]s, slices are lists.
    - Calls to the orchestration platform and to code of other packages go
      through the [Gateway] interface: each call is a transition of the
      abstract platform state [K] and is appended to the log of the world.
    - A nil dereference or an index out of range is the result [Panic]. *)

From Stdlib Require Import ZArith Lia.
From stdpp Require Import base strings gmap list pretty.

Local Open Scope string_scope.
Local Open Scope list_scope.
Local Open Scope Z_scope.

(** ** Data model *)

Module Types.

Definition error := string.

(** [time.Duration]: nanoseconds. *)
Definition Second : Z := 1000000000.

(** Two's complement wrap-around of a 64-bit Go [int]. *)
Definition wrap64 (z : Z) : Z := (z + 2 ^ 63) `mod` 2 ^ 64 - 2 ^ 63.

Record ObjectMeta := mkMeta {
  Name : string;
  ResourceVersion : string
}.

Record Store := mkStore {
  store_Name : string;
  store_Buried : bool
}.

Record Member := mkMember { member_Name : string }.

(** Modelled from the spec: the declarations of [Tidb] and of its [Spec] are
    not among the sources. The specification gives each role one desired
    replica count; the code reads it both as [td.Replicas] and as
    [td.Spec.Replicas] (and likewise [td.Version]), the promoted fields of an
    embedded [Spec]: they are the same field. *)
Record Spec := mkSpec {
  Version : string;
  Replicas : Z
}.

Record Tidb := mkTidb {
  td_Spec : Spec;
  td_Members : list Member;
  td_cur : string
}.

Record Tikv := mkTikv { Stores : list Store }.

Record Status := mkStatus {
  Phase : Z;
  ScaleState : Z;
  OuterAddresses : list string;
  OuterStatusAddresses : list string
}.

(** A cluster. The back pointer [td.Db] of a role is the record that holds it,
    so the methods of [*Tidb] are functions on the [Db]. *)
Record Db := mkDb {
  db_Metadata : ObjectMeta;
  db_Status : Status;
  db_Tidb : Tidb;
  db_Tikv : Tikv
}.

Definition GetName (db : Db) : string := Name (db_Metadata db).

Record DbList := mkDbList {
  list_Metadata : ObjectMeta;
  Items : list Db
}.

Record Pod := mkPod {
  pod_Name : string;
  pod_Image : string;
  pod_Ready : bool
}.

Record Job := mkJob {
  job_Name : string;
  job_Active : Z
}.

Inductive EventType := Added | Modified | Deleted | Error.

(** The string of a [kwatch.EventType], as [%s] prints it. *)
Definition EventType_string (t : EventType) : string :=
  match t with
  | Added => "ADDED"
  | Modified => "MODIFIED"
  | Deleted => "DELETED"
  | Error => "ERROR"
  end.

Record Event := mkEvent {
  ev_Type : EventType;
  ev_Object : Db
}.

(** [PVProvisioner]: an interface with two implementations. *)
Inductive PVProvisioner :=
| NilPVProvisioner
| HostPathPVProvisioner (HostName Dir : string).

(** The value of [Config.PVProvisioner], a string of the configuration. *)
Inductive ProvisionerKind := PVProvisionerNone | PVProvisionerHostpath | PVProvisionerOther (s : string).

(** What [parse] makes of one raw event of the stream: an event and no status,
    or a status (code, message) with whatever event [parse] returns with it
    ([None] is the nil pointer). *)
Inductive Parsed :=
| PEvent (ev : Event)
| PStatus (Code : Z) (Message : string) (ev : option Event).

(** One watch stream as the platform delivers it: the raw events it yields and
    whether the platform closes the channel after them ([false]: the stream
    stays open and silent). *)
Record Stream := mkStream {
  stream_items : list Parsed;
  stream_closes : bool
}.

(** Every call that leaves the process, in the order of the calls. *)
Inductive Action :=
| ASleep (d : Z)
| ALogWarn (msg : string)
| ALogError (msg : string)
| ACreateTPR
| AGetAllDbs
| AGetMetadata
| AClean (pv : PVProvisioner) (all : list Store)
| AGc (o n : option Db) (pv : option PVProvisioner)
| AStartSweeper
| ADeleteBuriedTikv (db : Db)
| AWatchTidbs (watchVersion : string)
| AStop
| AUpgradeRC (name image version : string)
| AGetPods (cell component : string)
| ADeletePods (name : string)
| AHttpGet (url : string) (timeout : Z)
| AListPodNames (cell component : string)
| AScaleReplicationController (name : string) (replicas : Z)
| ATrace (key component operation : string) (err : option error) (msg : string)
| AJobCreate (job : Job)
| AJobGet (name : string)
| AJobDelete (name : string)
| ADeletePodsByLabel (label value : string).

(** Setters for the fields the code assigns. *)
Definition set_Replicas (r : Z) (db : Db) : Db :=
  let td := db_Tidb db in
  mkDb (db_Metadata db) (db_Status db)
       (mkTidb (mkSpec (Version (td_Spec td)) r) (td_Members td) (td_cur td))
       (db_Tikv db).

Definition set_cur (c : string) (db : Db) : Db :=
  let td := db_Tidb db in
  mkDb (db_Metadata db) (db_Status db)
       (mkTidb (td_Spec td) (td_Members td) c)
       (db_Tikv db).

Definition set_Members (ms : list Member) (db : Db) : Db :=
  let td := db_Tidb db in
  mkDb (db_Metadata db) (db_Status db)
       (mkTidb (td_Spec td) ms (td_cur td))
       (db_Tikv db).

Definition set_ScaleState (s : Z) (db : Db) : Db :=
  let st := db_Status db in
  mkDb (db_Metadata db)
       (mkStatus (Phase st) s (OuterAddresses st) (OuterStatusAddresses st))
       (db_Tidb db) (db_Tikv db).

End Types.
Export Types.

(** ** The platform gateway and the code of other packages

    Everything the three files call and do not define. The effectful calls are
    transitions of the platform state [K]; the pure helpers and the constants
    of the [operator] package that are declared in other files are fields too. *)

Class Gateway := {
  K : Type;
  (* time *)
  sleep : Z -> K -> K;
  (* garbagecollection *)
  AfterPropertiesSet : Db -> Db;
  CreateTPR : K -> K * option error;
  GetAllDbs : K -> K * (error + option DbList);
  GetMetadata : K -> K * (error + string);
  Clean : PVProvisioner -> list Store -> K -> K * option error;
  gc : option Db -> option Db -> option PVProvisioner -> K -> K * option error;
  DeleteBuriedTikv : Db -> K -> K * option error;
  WatchTidbs : string -> K -> K * (error + Stream);
  (* what [%v] prints for the map [supportedPVProvisioners], whose keys are
     constants of another package *)
  supportedOptions : string;
  (* the Go scheduler: asked when the watch goroutine is about to take a step
     while the dispatcher goroutine has an event in hand, it tells whether the
     dispatcher takes its next step first *)
  dispatcherRuns : K -> K * bool;
  (* operator *)
  imageRegistry : string;
  PhaseTidbStarted : Z;
  tidbScaleErr : Z;
  ErrUnavailable : error;
  waitTidbComponentAvailableTimeout : Z;
  TidbMax : K -> Z;
  IsPodOk : Pod -> bool;
  needUpgrade : Pod -> string -> bool;
  upgradeRC : string -> string -> string -> K -> K * option error;
  GetPods : string -> string -> K -> K * (error + list Pod);
  ListPodNames : string -> string -> K -> K * (error + list string);
  DeletePods : string -> K -> K * option error;
  ScaleReplicationController : string -> Z -> K -> K * option error;
  httpGet : string -> Z -> K -> K * option error;
  (* retryutil: the error of an exhausted retry, given the number of attempts *)
  RetryError : Z -> error;
  (* k8sutil *)
  IsNotFound : error -> bool;
  JobCreate : Job -> K -> K * (error + Job);
  JobGet : string -> K -> K * (Job * option error);
  JobDelete : string -> K -> K * option error;
  DeletePodsByLabel : string -> string -> K -> K * option error
}.

(** ** The world and its monad *)

Module Monad.
Section Monad.
Context `{G : Gateway}.

Record World := mkWorld {
  plat : K;
  log : list Action
}.

Inductive Res (A : Type) :=
| Ok (w : World) (a : A)
| Panic (w : World).
Arguments Ok {A} w a.
Arguments Panic {A} w.

Definition M (A : Type) : Type := World -> Res A.

Definition ret {A} (a : A) : M A := fun w => Ok w a.

Definition bind {A B} (m : M A) (f : A -> M B) : M B :=
  fun w => match m w with
           | Ok w' a => f a w'
           | Panic w' => Panic w'
           end.

Definition panic {A} : M A := fun w => Panic w.

(** A call through the gateway: the platform moves, the log grows. *)
Definition call {A} (act : Action) (f : K -> K * A) : M A :=
  fun w => let '(k, a) := f (plat w) in Ok (mkWorld k (log w ++ [act])) a.

(** A read of the state behind the gateway. *)
Definition ask {A} (f : K -> A) : M A :=
  fun w => Ok w (f (plat w)).

(** [time.Sleep]. *)
Definition Sleep (d : Z) : M unit :=
  fun w => Ok (mkWorld (sleep d (plat w)) (log w ++ [ASleep d])) tt.

(** An effect without an answer. *)
Definition emit (act : Action) : M unit :=
  fun w => Ok (mkWorld (plat w) (log w ++ [act])) tt.

(** A deferred function on a panicking path: it runs, and the panic goes on. *)
Definition deferred_on_panic {A} (m : M A) (h : M unit) : M A :=
  fun w => match m w with
           | Ok w' a => Ok w' a
           | Panic w' => Panic (match h w' with Ok w'' _ => w'' | Panic w'' => w'' end)
           end.

Definition world_of {A} (r : Res A) : World :=
  match r with Ok w _ => w | Panic w => w end.

Definition value_of {A} (r : Res A) : option A :=
  match r with Ok _ a => Some a | Panic _ => None end.

End Monad.
End Monad.
Export Monad.

Arguments Ok {G A} w a.
Arguments Panic {G A} w.

Declare Scope go_scope.
Delimit Scope go_scope with go.
Notation "x <- m ;; k" := (bind m (fun x => k))
  (at level 100, m at next level, right associativity) : go_scope.
Notation "m ;;; k" := (bind m (fun _ => k))
  (at level 100, right associativity) : go_scope.

(** ** garbagecollection/watcher.go *)

Module Watch.
Section Watch.
Context `{G : Gateway}.
Local Open Scope go_scope.

Definition cleanInterval : Z := 30 * Second.
Definition initRetryWaitTime : Z := 30 * Second.
Definition StatusGone : Z := 410.

Definition ErrVersionOutdated : error := "requested version is outdated in apiserver".

(** The receiver of the methods, with the package variable [pvProvisioner]
    that [initResource] assigns and [recycle] and [handleTidbEvent] read. *)
Record Watcher := mkWatcher {
  cfg_PVProvisioner : ProvisionerKind;
  cfg_HostName : string;
  dbs : gmap string Db;
  dbRVs : gmap string string;
  pvProvisioner : option PVProvisioner
}.

Definition NewWatcher (kind : ProvisionerKind) (host : string) : Watcher :=
  mkWatcher kind host ∅ ∅ None.

(** [Config.Validate]: the provisioners supported are the two constants
    [PVProvisionerHostpath] and [PVProvisionerNone]. *)
Definition Validate (kind : ProvisionerKind) : option error :=
  match kind with
  | PVProvisionerNone | PVProvisionerHostpath => None
  | PVProvisionerOther s =>
      Some ("persistent volume provisioner " +:+ s +:+ " is not supported: options = "
            +:+ supportedOptions)
  end.

Definition set_maps (d : gmap string Db) (r : gmap string string) (w : Watcher) : Watcher :=
  mkWatcher (cfg_PVProvisioner w) (cfg_HostName w) d r (pvProvisioner w).

Definition set_pvProvisioner (pv : PVProvisioner) (w : Watcher) : Watcher :=
  mkWatcher (cfg_PVProvisioner w) (cfg_HostName w) (dbs w) (dbRVs w) (Some pv).

Definition unsafe_state (t : EventType) : error :=
  "unsafe state. tidb was never created but we received event (" +:+ EventType_string t +:+ ")".

(** [handleTidbEvent]. The lookups [w.dbs[db.GetName()]] that are passed to
    [gc] are made after the assignment, respectively after the [delete]. *)
Definition handleTidbEvent (w : Watcher) (event : Event) : M (Watcher * option error) :=
  let db := AfterPropertiesSet (ev_Object event) in
  match ev_Type event with
  | Added =>
      ret (set_maps (<[GetName db := db]> (dbs w))
                    (<[GetName db := ResourceVersion (db_Metadata db)]> (dbRVs w)) w, None)
  | Modified =>
      match dbs w !! GetName db with
      | None => ret (w, Some (unsafe_state Modified))
      | Some _ =>
          let w' := set_maps (<[GetName db := db]> (dbs w))
                             (<[GetName db := ResourceVersion (db_Metadata db)]> (dbRVs w)) w in
          err <- call (AGc (dbs w' !! GetName db) (Some db) (pvProvisioner w'))
                      (gc (dbs w' !! GetName db) (Some db) (pvProvisioner w')) ;;
          ret (w', err)
      end
  | Deleted =>
      match dbs w !! GetName db with
      | None => ret (w, Some (unsafe_state Deleted))
      | Some _ =>
          let w' := set_maps (delete (GetName db) (dbs w)) (delete (GetName db) (dbRVs w)) w in
          err <- call (AGc (dbs w' !! GetName db) None (pvProvisioner w'))
                      (gc (dbs w' !! GetName db) None (pvProvisioner w')) ;;
          ret (w', err)
      end
  | Error => ret (w, None)
  end.

(** The loop of [cleanClusters] over the known clusters (in the order of
    [map_to_list]; Go does not fix it): a failure is logged and the sweep goes
    on. *)
Fixpoint sweep (known : list Db) : M unit :=
  match known with
  | [] => ret tt
  | db :: rest =>
      e <- call (ADeleteBuriedTikv db) (DeleteBuriedTikv db) ;;
      match e with
      | Some err =>
          emit (ALogError ("failed to delete buried tikv of " +:+ GetName db +:+ ": " +:+ err)) ;;;
          sweep rest
      | None => sweep rest
      end
  end.

Definition cleanClusters (w : Watcher) : M unit :=
  sweep (map snd (map_to_list (dbs w))).

(** The body of the dispatcher's [for ev := range eventCh]: handle the event,
    warn when it fails, go on. The panic timer around the handler only logs
    when the handler takes more than a minute; it is left out. *)
Definition dispatch1 (w : Watcher) (ev : Event) : M Watcher :=
  r <- handleTidbEvent w ev ;;
  match r.2 with
  | Some err => emit (ALogWarn ("fail to handle event: " +:+ err)) ;;; ret r.1
  | None => ret r.1
  end.

Fixpoint dispatch (w : Watcher) (evs : list Event) : M Watcher :=
  match evs with
  | [] => ret w
  | ev :: rest => w' <- dispatch1 w ev ;; dispatch w' rest
  end.

(** The loop of [isDbsCacheUnstable] over the relisted clusters. *)
Fixpoint anyChanged (rvs : gmap string string) (currentDbs : list Db) : bool :=
  match currentDbs with
  | [] => false
  | cd :: rest =>
      match rvs !! Name (db_Metadata cd) with
      | None => true
      | Some rv =>
          if bool_decide (rv = ResourceVersion (db_Metadata cd)) then anyChanged rvs rest else true
      end
  end.

Definition isDbsCacheUnstable (w : Watcher) (currentDbs : list Db) : bool :=
  if bool_decide (size (dbRVs w) = length currentDbs) then anyChanged (dbRVs w) currentDbs
  else true.

(** The loop of [findAllDbs] over [dbList.Items]. *)
Fixpoint seed (w : Watcher) (items : list Db) : Watcher :=
  match items with
  | [] => w
  | item :: rest =>
      let db := AfterPropertiesSet item in
      seed (set_maps (<[Name (db_Metadata db) := db]> (dbs w))
                     (<[Name (db_Metadata db) := ResourceVersion (db_Metadata db)]> (dbRVs w)) w)
           rest
  end.

Definition findAllDbs (w : Watcher) : M (Watcher * (error + string)) :=
  r <- call AGetAllDbs GetAllDbs ;;
  match r with
  | inl err => ret (w, inl err)
  | inr None => ret (w, inr "")
  | inr (Some dbList) => ret (seed w (Items dbList), inr (ResourceVersion (list_Metadata dbList)))
  end.

Definition initResource (w : Watcher) : M (Watcher * (error + string)) :=
  e <- call ACreateTPR CreateTPR ;;
  match e with
  | Some err => ret (w, inl ("fail to create TPR: " +:+ err))
  | None =>
      r <- findAllDbs w ;;
      match r.2 with
      | inl err => ret (r.1, inl err)
      | inr watchVersion =>
          match cfg_PVProvisioner w with
          | PVProvisionerNone => ret (set_pvProvisioner NilPVProvisioner r.1, inr watchVersion)
          | PVProvisionerHostpath =>
              md <- call AGetMetadata GetMetadata ;;
              match md with
              | inl err => ret (r.1, inl err)
              | inr volume =>
                  ret (set_pvProvisioner (HostPathPVProvisioner (cfg_HostName w) volume) r.1,
                       inr watchVersion)
              end
          | PVProvisionerOther _ => ret (r.1, inr watchVersion)
          end
      end
  end.

(** [recycle]: every store of every known cluster (the order in which Go
    ranges over [w.dbs] is not fixed; here it is that of [map_to_list]).
    Calling [Clean] on the nil interface panics. *)
Definition allStores (w : Watcher) : list Store :=
  concat (map (fun kv => Stores (db_Tikv kv.2)) (map_to_list (dbs w))).

Definition recycle (w : Watcher) : M (option error) :=
  match pvProvisioner w with
  | None => panic
  | Some pv => call (AClean pv (allStores w)) (Clean pv (allStores w))
  end.

(** *** The two goroutines

    [watch] starts the watch goroutine, [Run] then starts the dispatcher, which
    ranges over [eventCh]. The channel is unbuffered: a send of the watch
    goroutine completes when the dispatcher receives, and the dispatcher
    receives when it is done with the event before. So when the watch
    goroutine goes on after a send, every earlier event has been handled and
    the event just sent is in the dispatcher's hands: its handler runs while
    the watch goroutine goes on, until the next send.

    The handler is taken in two steps, the map updates and what follows them
    (the call of [gc], and the warning of the dispatcher when the handler
    fails); the watch goroutine reads [w.dbRVs] only, which the first step
    writes once. Each read and each write of the map is one step: the fatal
    error of the Go runtime on a map read that overlaps a map write is not
    modelled. Which goroutine takes the next step is up to the scheduler
    ([dispatcherRuns]). *)

(** What is left of a handler after its map updates. *)
Inductive Plan :=
| PlanDone
| PlanWarn (err : error)
| PlanGc (o n : option Db) (pv : option PVProvisioner).

(** The dispatcher: waiting for an event, holding one it has just received,
    or past the map updates of its handler. *)
Inductive Dispatcher :=
| Idle
| Received (ev : Event)
| Finishing (plan : Plan).

(** [handleTidbEvent] up to its map updates. *)
Definition handleMaps (w : Watcher) (event : Event) : Watcher * Plan :=
  let db := AfterPropertiesSet (ev_Object event) in
  match ev_Type event with
  | Added =>
      (set_maps (<[GetName db := db]> (dbs w))
                (<[GetName db := ResourceVersion (db_Metadata db)]> (dbRVs w)) w, PlanDone)
  | Modified =>
      match dbs w !! GetName db with
      | None => (w, PlanWarn (unsafe_state Modified))
      | Some _ =>
          let w' := set_maps (<[GetName db := db]> (dbs w))
                             (<[GetName db := ResourceVersion (db_Metadata db)]> (dbRVs w)) w in
          (w', PlanGc (dbs w' !! GetName db) (Some db) (pvProvisioner w'))
      end
  | Deleted =>
      match dbs w !! GetName db with
      | None => (w, PlanWarn (unsafe_state Deleted))
      | Some _ =>
          let w' := set_maps (delete (GetName db) (dbs w)) (delete (GetName db) (dbRVs w)) w in
          (w', PlanGc (dbs w' !! GetName db) None (pvProvisioner w'))
      end
  | Error => (w, PlanDone)
  end.

(** The rest of the handler and of the body of the dispatcher's loop. *)
Definition finish (plan : Plan) : M unit :=
  match plan with
  | PlanDone => ret tt
  | PlanWarn err => emit (ALogWarn ("fail to handle event: " +:+ err))
  | PlanGc o n pv =>
      e <- call (AGc o n pv) (gc o n pv) ;;
      match e with
      | Some err => emit (ALogWarn ("fail to handle event: " +:+ err))
      | None => ret tt
      end
  end.

(** One step of the dispatcher. *)
Definition dstep (w : Watcher) (d : Dispatcher) : M (Watcher * Dispatcher) :=
  match d with
  | Idle => ret (w, Idle)
  | Received ev => ret ((handleMaps w ev).1, Finishing (handleMaps w ev).2)
  | Finishing plan => finish plan ;;; ret (w, Idle)
  end.

(** The dispatcher is done with its event: this is what a send on [eventCh]
    waits for. *)
Definition settle (w : Watcher) (d : Dispatcher) : M Watcher :=
  r <- dstep w d ;;
  r' <- dstep r.1 r.2 ;;
  ret r'.1.

(** The scheduler is asked. *)
Definition scheduled : M bool :=
  fun world => let '(k, b) := dispatcherRuns (plat world) in Ok (mkWorld k (log world)) b.

(** Before a step of the watch goroutine the scheduler may let the dispatcher
    take one step, or both. *)
Definition yield1 (w : Watcher) (d : Dispatcher) : M (Watcher * Dispatcher) :=
  match d with
  | Idle => ret (w, Idle)
  | _ =>
      b <- scheduled ;;
      if b : bool then dstep w d else ret (w, d)
  end.

Definition yield (w : Watcher) (d : Dispatcher) : M (Watcher * Dispatcher) :=
  r <- yield1 w d ;;
  yield1 r.1 r.2.

(** [isDbsCacheUnstable] as the watch goroutine runs it, with the dispatcher
    at work: one read of [len(w.dbRVs)], then one lookup per relisted
    cluster. *)
Fixpoint anyChangedRacing (w : Watcher) (d : Dispatcher) (currentDbs : list Db)
    : M (Watcher * Dispatcher * bool) :=
  match currentDbs with
  | [] => ret (w, d, false)
  | cd :: rest =>
      r <- yield w d ;;
      match dbRVs r.1 !! Name (db_Metadata cd) with
      | None => ret (r.1, r.2, true)
      | Some rv =>
          if bool_decide (rv = ResourceVersion (db_Metadata cd))
          then anyChangedRacing r.1 r.2 rest
          else ret (r.1, r.2, true)
      end
  end.

Definition isDbsCacheUnstableRacing (w : Watcher) (d : Dispatcher) (currentDbs : list Db)
    : M (Watcher * Dispatcher * bool) :=
  r <- yield w d ;;
  if bool_decide (size (dbRVs r.1) = length currentDbs)
  then anyChangedRacing r.1 r.2 currentDbs
  else ret (r.1, r.2, true).

(** How one round of the [for] of the watch goroutine ends. Every way out of
    the inner loop sends on [errCh]:
    - [Exit e]: [errCh <- e; return];
    - [Again e v]: the inner loop was left by [break], [errCh <- e] follows it
      and the next round watches from [v];
    - [Blocked]: the receive from the stream never returns. *)
Inductive RoundEnd :=
| Exit (e : error)
| Again (e : error) (watchVersion : string)
| Blocked.

(** The way out of a round: the dispatcher may get further before the send on
    [errCh]. *)
Definition leave (w : Watcher) (d : Dispatcher) (e : RoundEnd)
    : M (Watcher * Dispatcher * RoundEnd) :=
  r <- yield w d ;;
  ret (r.1, r.2, e).

(** The inner [for] over one stream, from the store [w] with the dispatcher
    in state [d]. [eventCh <- ev] waits for the dispatcher ([settle]) and
    hands it the event; every other step of the goroutine that the dispatcher
    can interfere with is preceded by [yield]. When the stream stays silent
    the goroutine waits for ever and the dispatcher comes to rest. *)
Fixpoint watchStream (w : Watcher) (d : Dispatcher) (watchVersion : string)
    (items : list Parsed) (closes : bool) : M (Watcher * Dispatcher * RoundEnd) :=
  let send (w : Watcher) (d : Dispatcher) (ev : Event) (rest : list Parsed) :=
    w' <- settle w d ;;
    watchStream w' (Received ev) (ResourceVersion (db_Metadata (ev_Object ev))) rest closes in
  match items with
  | [] =>
      if closes then leave w d (Again "test" watchVersion)
      else w' <- settle w d ;; ret (w', Idle, Blocked)
  | PEvent ev :: rest => send w d ev rest
  | PStatus code msg ev :: rest =>
      s <- yield w d ;;
      emit AStop ;;;
      if bool_decide (code = StatusGone) then
        s' <- yield s.1 s.2 ;;
        r <- call AGetAllDbs GetAllDbs ;;
        match r with
        | inl _ => leave s'.1 s'.2 (Exit ErrVersionOutdated)
        | inr None => panic
        | inr (Some dbList) =>
            c <- isDbsCacheUnstableRacing s'.1 s'.2 (Items dbList) ;;
            if negb c.2
            then leave c.1.1 c.1.2 (Again "test" (ResourceVersion (list_Metadata dbList)))
            else leave c.1.1 c.1.2 (Exit ErrVersionOutdated)
        end
      else
        match ev with
        | None => panic
        | Some ev => send s.1 s.2 ev rest
        end
  end.

(** One round of the outer [for]. *)
Definition watchRound (w : Watcher) (d : Dispatcher) (watchVersion : string)
    : M (Watcher * Dispatcher * RoundEnd) :=
  s <- yield w d ;;
  r <- call (AWatchTidbs watchVersion) (WatchTidbs watchVersion) ;;
  match r with
  | inl err => leave s.1 s.2 (Exit err)
  | inr resp => watchStream s.1 s.2 watchVersion (stream_items resp) (stream_closes resp)
  end.



(** The retry loop at the head of [Run]: [None] when the fuel is spent and
    [initResource] has failed every time. *)
Fixpoint initLoop (fuel : nat) (w : Watcher) : M (option (Watcher * string)) :=
  match fuel with
  | O => ret None
  | S fuel' =>
      r <- initResource w ;;
      match r.2 with
      | inr watchVersion => ret (Some (r.1, watchVersion))
      | inl _ =>
          Sleep initRetryWaitTime ;;;
          initLoop fuel' r.1
      end
  end.

(** What the caller of [Run] sees. *)
Inductive Outcome :=
| Returns (e : error)
| NeverReturns
| Initializing.

(** [Run]. It returns what it receives from [errCh], which is the first error
    the watch goroutine sends: one round decides it, and the dispatcher has
    no event when that round begins. The store in the result is the store at
    that moment. The sweeper goroutine, which calls [cleanClusters] every
    [cleanInterval], is started ([AStartSweeper]) and not interleaved: it does
    not send on [errCh]. *)
Definition Run (fuel : nat) (w : Watcher) : M (Watcher * Outcome) :=
  i <- initLoop fuel w ;;
  match i with
  | None => ret (w, Initializing)
  | Some (w1, watchVersion) =>
      e <- recycle w1 ;;
      match e with
      | Some err => ret (w1, Returns err)
      | None =>
          emit AStartSweeper ;;;
          r <- watchRound w1 Idle watchVersion ;;
          match r.2 with
          | Exit err => ret (r.1.1, Returns err)
          | Again err _ => ret (r.1.1, Returns err)
          | Blocked => ret (r.1.1, NeverReturns)
          end
      end
  end.

End Watch.
End Watch.

(** ** pkg/util/retryutil *)

Module Retryutil.
Section Retryutil.
Context `{G : Gateway}.
Local Open Scope go_scope.

(** Modelled from the spec: [retryutil.Retry] is not among the sources. The
    specification describes it as a bounded retry at a fixed interval
    (interval x attempt count = timeout): a failing iteration is not fatal and
    is retried, exhausting the attempts is the error that reaches the caller.
    Here an iteration fails when the condition answers [false] or an error;
    the helper sleeps [interval] between two attempts. The condition may
    assign variables of its caller: they are the state [St]. *)
Fixpoint retryLoop {St : Type} (interval : Z) (maxRetries : Z) (n : nat)
    (f : St -> M (St * (bool * option error))) (s : St) : M (St * option error) :=
  match n with
  | O => ret (s, Some (RetryError maxRetries))
  | S n' =>
      r <- f s ;;
      match r.2 with
      | (true, None) => ret (r.1, None)
      | _ =>
          (match n' with O => ret tt | S _ => Sleep interval end) ;;;
          retryLoop interval maxRetries n' f r.1
      end
  end.

Definition Retry {St : Type} (interval : Z) (maxRetries : Z)
    (f : St -> M (St * (bool * option error))) (s : St) : M (St * option error) :=
  retryLoop interval maxRetries (Z.to_nat maxRetries) f s.

End Retryutil.
End Retryutil.
Export Retryutil.

(** ** operator: the tidb role *)

Module Operator.
Section Operator.
Context `{G : Gateway}.
Local Open Scope go_scope.

Definition defaultTidbStatusPort : Z := 10080.

Definition td_Version (db : Db) : string := Version (td_Spec (db_Tidb db)).
Definition td_Replicas (db : Db) : Z := Replicas (td_Spec (db_Tidb db)).

(** [syncMembers]: the membership list becomes the live pod names. *)
Definition syncMembers (db : Db) : M (Db * option error) :=
  r <- call (AListPodNames (GetName db) "tidb") (ListPodNames (GetName db) "tidb") ;;
  match r with
  | inl err => ret (db, Some err)
  | inr pods => ret (set_Members (map mkMember pods) db, None)
  end.

(** The counting loop of the health gate. *)
Fixpoint countOk (pods : list Pod) (count : Z) : Z :=
  match pods with
  | [] => count
  | pod :: rest => countOk rest (if IsPodOk pod then count + 1 else count)
  end.

(** One iteration of the poll of [waitForOk]. *)
Definition waitForOk_poll (sURL : string) (db : Db) : M (Db * (bool * option error)) :=
  r <- call (AGetPods (GetName db) "tidb") (GetPods (GetName db) "tidb") ;;
  match r with
  | inl err => ret (db, (false, Some err))
  | inr pods =>
      if negb (countOk pods 0 =? td_Replicas db) then ret (db, (false, None))
      else
        e <- call (AHttpGet sURL (2 * Second)) (httpGet sURL (2 * Second)) ;;
        match e with
        | Some _ => ret (db, (false, None))
        | None =>
            m <- syncMembers db ;;
            match m.2 with
            | Some err => ret (m.1, (false, Some err))
            | None => ret (m.1, (true, None))
            end
        end
  end.

(** The URL the health gate asks: the first outer status address, or the pod
    under upgrade when [cur] is set. *)
Definition statusURL (first : string) (db : Db) : string :=
  let host := if bool_decide (td_cur (db_Tidb db) = "") then first
              else td_cur (db_Tidb db) +:+ ":" +:+ pretty defaultTidbStatusPort in
  "http://" +:+ host +:+ "/status".

Definition healthInterval : Z := 3 * Second.

(** [waitForOk]. [OuterStatusAddresses[0]] is evaluated first: on an empty
    slice it panics. *)
Definition waitForOk (db : Db) : M (Db * option error) :=
  match OuterStatusAddresses (db_Status db) with
  | [] => panic
  | first :: _ =>
      Retry healthInterval (Z.quot waitTidbComponentAvailableTimeout healthInterval)
            (waitForOk_poll (statusURL first db)) db
  end.

(** The loop of [upgrade] over the listed pods; [upgraded] is the flag the
    deferred function reads. *)
Fixpoint upgradePods (pods : list Pod) (db : Db) (upgraded : bool)
    : M (Db * bool * option error) :=
  match pods with
  | [] => ret (db, upgraded, None)
  | pod :: rest =>
      if needUpgrade pod (td_Version db) then
        e <- call (ADeletePods (pod_Name pod)) (DeletePods (pod_Name pod)) ;;
        match e with
        | Some err => ret (db, true, Some err)
        | None =>
            Sleep (8 * Second) ;;;
            r <- waitForOk (set_cur (pod_Name pod) db) ;;
            match r.2 with
            | Some err => ret (r.1, true, Some err)
            | None => upgradePods rest r.1 true
            end
        end
      else upgradePods rest db upgraded
  end.

(** The body of [upgrade], before the deferred function runs. *)
Definition upgradeBody (db : Db) : M (Db * bool * option error) :=
  let newImage := imageRegistry +:+ "/tidb:" +:+ td_Version db in
  if Phase (db_Status db) <? PhaseTidbStarted then ret (db, false, Some ErrUnavailable)
  else
    e <- call (AUpgradeRC ("tidb-" +:+ GetName db) newImage (td_Version db))
              (upgradeRC ("tidb-" +:+ GetName db) newImage (td_Version db)) ;;
    match e with
    | Some err => ret (db, false, Some err)
    | None =>
        r <- call (AGetPods (GetName db) "tidb") (GetPods (GetName db) "tidb") ;;
        match r with
        | inl err => ret (db, false, Some err)
        | inr pods => upgradePods pods db false
        end
    end.

(** [upgrade]: the body, then the deferred function: [cur] is reset and the
    audit event is traced when a pod was touched or an error is returned.
    The body can only panic in [waitForOk], inside the loop, where [upgraded]
    is true and [err] is nil: the deferred function traces that. *)
Definition upgrade (db : Db) : M (Db * option error) :=
  r <- deferred_on_panic (upgradeBody db)
         (emit (ATrace (GetName db) "tidb/tidb" "upgrate" None
                       ("Upgrate tidb to version: " +:+ td_Version db))) ;;
  let db' := set_cur "" r.1.1 in
  (if r.1.2 || bool_decide (is_Some r.2)
   then emit (ATrace (GetName db) "tidb/tidb" "upgrate" r.2
                     ("Upgrate tidb to version: " +:+ td_Version db'))
   else ret tt) ;;;
  ret (db', r.2).

(** The loop of [checkStatus]: a pod that is not ok is deleted. *)
Fixpoint checkPods (pods : list Pod) : M (option error) :=
  match pods with
  | [] => ret None
  | pod :: rest =>
      if negb (IsPodOk pod) then
        e <- call (ADeletePods (pod_Name pod)) (DeletePods (pod_Name pod)) ;;
        match e with
        | Some err => ret (Some err)
        | None => checkPods rest
        end
      else checkPods rest
  end.

Definition checkStatus (db : Db) : M (option error) :=
  r <- call (AGetPods (GetName db) "tidb") (GetPods (GetName db) "tidb") ;;
  match r with
  | inl err => ret (Some err)
  | inr pods => checkPods pods
  end.

(** The checks and the scaling of [reconcileTidbs], before the deferred
    function runs. [td.Replicas] and [td.Spec.Replicas] are the same field. *)
Definition scaleBody (db : Db) (replica : Z) : M (Db * option error) :=
  max <- ask TidbMax ;;
  if replica >? max then
    ret (db, Some ("the replicas of tidb exceeds max " +:+ pretty max))
  else if replica <? 2 then
    ret (db, Some "replicas must be greater than 2")
  else if replica >? wrap64 (td_Replicas db * 3) then
    ret (db, Some "each scale out can not more then 2 times")
  else if wrap64 (wrap64 (td_Replicas db - replica) * 3) >? td_Replicas db then
    ret (db, Some "each scale dowm can not be less than one-third")
  else
    let db1 := set_Replicas replica db in
    e <- call (AScaleReplicationController ("tidb-" +:+ GetName db) replica)
              (ScaleReplicationController ("tidb-" +:+ GetName db) replica) ;;
    match e with
    | Some err => ret (db1, Some err)
    | None => waitForOk db1
    end.

(** [reconcileTidbs]. The deferred function was given the replica count of
    the moment the [defer] statement ran. The body can only panic in
    [waitForOk], where [err] is nil: the deferred function traces that. *)
Definition reconcileTidbs (db : Db) (replica : Z) : M (Db * option error) :=
  if (replica <? 1) || (replica =? td_Replicas db) then
    e <- checkStatus db ;;
    ret (db, e)
  else
    let r := td_Replicas db in
    let msg := "Scale tidb '" +:+ GetName db +:+ "' replicas from " +:+ pretty r
               +:+ " to " +:+ pretty replica in
    res <- deferred_on_panic (scaleBody db replica)
             (emit (ATrace (GetName db) "tidb/tidb" "scale" None msg)) ;;
    let db' := match res.2 with
               | Some _ => set_ScaleState (Z.lor (ScaleState (db_Status res.1)) tidbScaleErr) res.1
               | None => res.1
               end in
    emit (ATrace (GetName db) "tidb/tidb" "scale" res.2 msg) ;;;
    ret (db', res.2).

End Operator.
End Operator.

(** ** pkg/util/k8sutil/job.go *)

Module K8sutil.
Section K8sutil.
Context `{G : Gateway}.
Local Open Scope go_scope.

(** [apierrors.IsNotFound]: false on nil. *)
Definition isNotFound (err : option error) : bool :=
  match err with
  | None => false
  | Some e => IsNotFound e
  end.

(** One iteration of the poll of [CreateAndWaitJob]; it assigns [retjob]. *)
Definition jobPoll (name : string) (retjob : Job) : M (Job * (bool * option error)) :=
  r <- call (AJobGet name) (JobGet name) ;;
  match r.2 with
  | Some err => ret (r.1, (false, Some err))
  | None => if job_Active r.1 =? 1 then ret (r.1, (true, None)) else ret (r.1, (false, None))
  end.

Definition CreateAndWaitJob (job : Job) (timeout : Z) : M (option Job * option error) :=
  c <- call (AJobCreate job) (JobCreate job) ;;
  match c with
  | inl err => ret (None, Some err)
  | inr retjob =>
      r <- Retry Second (Z.quot timeout Second) (jobPoll (job_Name job)) retjob ;;
      ret (Some r.1, r.2)
  end.

Definition DeleteJob (name : string) : M (option error) :=
  err <- call (AJobDelete name) (JobDelete name) ;;
  if negb (isNotFound err) then ret err
  else call (ADeletePodsByLabel "job-name" name) (DeletePodsByLabel "job-name" name).

End K8sutil.
End K8sutil.


(** ** operator: installing and uninstalling the tidb role

    The rest of the role's file. What it calls and does not define is the
    interface [Installer]; these calls move the platform and are not entered
    in the log. *)

Class Installer `{G : Gateway} := {
  PhaseTidbPending : Z;
  PhaseTidbStartFailed : Z;
  waitPodRuningTimeout : Z;
  tidbServiceYaml : string;
  tidbRcYaml : string;
  (* [toJSONTemplate]: the replacer of the standard library and the YAML
     converter, as a function of the cluster and the template *)
  toJSONTemplate : Db -> string -> error + string;
  (* [td.Db.update] *)
  update : Db -> K -> K * option error;
  (* [k8sutil.CreateServiceByJSON]: the node ports of [srv.Spec.Ports] *)
  CreateServiceByJSON : string -> K -> K * (error + list Z);
  getProxys : K -> list string;
  (* [k8sutil.CreateRcByJSON], with the version its callback sets *)
  CreateRcByJSON : string -> Z -> string -> K -> K * option error;
  DelRc : string -> K -> K * option error;
  DelSrvs : string -> K -> K * option error
}.

Module Install.
Section Install.
Context `{I : Installer}.
Import Operator.
Local Open Scope go_scope.

(** A call that is not entered in the log. *)
Definition step {A} (f : K -> K * A) : M A :=
  fun w => Ok (mkWorld (f (plat w)).1 (log w)) (f (plat w)).2.

Definition set_Phase (ph : Z) (db : Db) : Db :=
  let st := db_Status db in
  mkDb (db_Metadata db)
       (mkStatus ph (ScaleState st) (OuterAddresses st) (OuterStatusAddresses st))
       (db_Tidb db) (db_Tikv db).

Definition set_Addresses (outer status : list string) (db : Db) : Db :=
  let st := db_Status db in
  mkDb (db_Metadata db) (mkStatus (Phase st) (ScaleState st) outer status)
       (db_Tidb db) (db_Tikv db).

(** [fmt.Sprintf("%s:%d", host, port)]. *)
Definition hostPort (host : string) (port : Z) : string := host +:+ ":" +:+ pretty port.

(** [createService]. The loop over the proxies reads [Ports[0]] (when there
    is a proxy); the status address reads [ps[0]] and [Ports[1]]: an index out
    of range panics. *)
Definition createService (db : Db) : M (Db * option error) :=
  match toJSONTemplate db tidbServiceYaml with
  | inl err => ret (db, Some err)
  | inr j =>
      r <- step (CreateServiceByJSON j) ;;
      match r with
      | inl err => ret (db, Some err)
      | inr ports =>
          ps <- ask getProxys ;;
          match ps, ports with
          | py0 :: _, p0 :: p1 :: _ =>
              ret (set_Addresses
                     (OuterAddresses (db_Status db) ++ map (fun py => hostPort py p0) ps)
                     (OuterStatusAddresses (db_Status db) ++ [hostPort py0 p1]) db, None)
          | _, _ => panic
          end
      end
  end.

Definition createReplicationController (db : Db) : M (option error) :=
  match toJSONTemplate db tidbRcYaml with
  | inl err => ret (Some err)
  | inr j => step (CreateRcByJSON j waitPodRuningTimeout (td_Version db))
  end.

(** The body of [install] after the [defer] statement. *)
Definition installBody (db : Db) : M (Db * option error) :=
  s <- createService db ;;
  match s.2 with
  | Some err => ret (s.1, Some err)
  | None =>
      e <- createReplicationController s.1 ;;
      match e with
      | Some err => ret (s.1, Some err)
      | None => waitForOk s.1
      end
  end.

Definition installMessage (db : Db) : string :=
  "Install tidb replicationcontrollers with " +:+ pretty (td_Replicas db) +:+ " replicas on k8s".

(** [install]. The phase is set to pending and the cluster is updated before
    the [defer] statement: when the update fails the deferred function does
    not run. Otherwise it sets the phase from the error and traces the audit
    event; on a panic of the body [err] is nil. *)
Definition install (db : Db) : M (Db * option error) :=
  let db0 := set_Phase PhaseTidbPending db in
  u <- step (update db0) ;;
  match u with
  | Some err => ret (db0, Some err)
  | None =>
      r <- deferred_on_panic (installBody db0)
             (emit (ATrace (GetName db) "tidb/tidb" "install" None (installMessage db0))) ;;
      let ph := match r.2 with Some _ => PhaseTidbStartFailed | None => PhaseTidbStarted end in
      emit (ATrace (GetName db) "tidb/tidb" "install" r.2 (installMessage r.1)) ;;;
      ret (set_Phase ph r.1, r.2)
  end.

(** The fields [uninstall] clears. [Status.MigrateState], which the [Status]
    above does not carry, is threaded beside the cluster. *)
Definition cleared (db : Db) : Db :=
  mkDb (db_Metadata db)
       (mkStatus (Phase (db_Status db)) 0 [] [])
       (mkTidb (td_Spec (db_Tidb db)) [] "")
       (db_Tikv db).

Definition uninstall (db : Db) (MigrateState : string) : M (Db * string * option error) :=
  e <- step (DelRc ("tidb-" +:+ GetName db)) ;;
  match e with
  | Some err => ret (db, MigrateState, Some err)
  | None =>
      e' <- step (DelSrvs ("tidb-" +:+ GetName db)) ;;
      match e' with
      | Some err => ret (db, MigrateState, Some err)
      | None => ret (cleared db, "", None)
      end
  end.

End Install.
End Install.
(** ** A scripted platform

    A small gateway whose answers are read from a script, to run the code on
    concrete scenarios. The answers of [CreateTPR] and [GetAllDbs] are
    consumed one per call; the others are the same at every call. *)

Module Toy.

Record ToyK := mkToyK {
  toy_tpr : list (option error);
  toy_lists : list (error + option DbList);
  toy_clean : option error;
  toy_gc : option error;
  toy_watch : error + Stream;
  toy_max : Z;
  toy_pods : error + list Pod;
  toy_names : error + list string;
  toy_delete : option error;
  toy_scale : option error;
  toy_http : option error;
  toy_job : Job * option error;
  toy_jobdel : option error
}.

Definition pop_tpr (k : ToyK) : ToyK * option error :=
  match toy_tpr k with
  | [] => (k, None)
  | a :: rest =>
      (mkToyK rest (toy_lists k) (toy_clean k) (toy_gc k) (toy_watch k) (toy_max k)
              (toy_pods k) (toy_names k) (toy_delete k) (toy_scale k) (toy_http k)
              (toy_job k) (toy_jobdel k), a)
  end.

Definition pop_list (k : ToyK) : ToyK * (error + option DbList) :=
  match toy_lists k with
  | [] => (k, inr None)
  | a :: rest =>
      (mkToyK (toy_tpr k) rest (toy_clean k) (toy_gc k) (toy_watch k) (toy_max k)
              (toy_pods k) (toy_names k) (toy_delete k) (toy_scale k) (toy_http k)
              (toy_job k) (toy_jobdel k), a)
  end.

Definition toy : Gateway := {|
  K := ToyK;
  sleep := fun _ k => k;
  AfterPropertiesSet := fun db => db;
  CreateTPR := pop_tpr;
  GetAllDbs := pop_list;
  GetMetadata := fun k => (k, inr "/data");
  Clean := fun _ _ k => (k, toy_clean k);
  gc := fun _ _ _ k => (k, toy_gc k);
  DeleteBuriedTikv := fun _ k => (k, None);
  WatchTidbs := fun _ k => (k, toy_watch k);
  supportedOptions := "map[hostpath:{} none:{}]";
  dispatcherRuns := fun k => (k, true);
  imageRegistry := "registry.local";
  PhaseTidbStarted := 6;
  tidbScaleErr := 4;
  ErrUnavailable := "tidb cluster is unavailable";
  waitTidbComponentAvailableTimeout := 9 * Second;
  TidbMax := toy_max;
  IsPodOk := pod_Ready;
  needUpgrade := fun pod version => negb (String.eqb (pod_Image pod) version);
  upgradeRC := fun _ _ _ k => (k, None);
  GetPods := fun _ _ k => (k, toy_pods k);
  ListPodNames := fun _ _ k => (k, toy_names k);
  DeletePods := fun _ k => (k, toy_delete k);
  ScaleReplicationController := fun _ _ k => (k, toy_scale k);
  httpGet := fun _ _ k => (k, toy_http k);
  RetryError := fun n => "still failing after " +:+ pretty n +:+ " retries";
  IsNotFound := fun e => String.eqb e "not found";
  JobCreate := fun job k => (k, inr job);
  JobGet := fun _ k => (k, toy_job k);
  JobDelete := fun _ k => (k, toy_jobdel k);
  DeletePodsByLabel := fun _ _ k => (k, None)
|}.

(** The same platform under a scheduler that lets the dispatcher run only
    when the watch goroutine waits for it. *)
Definition toyLate : Gateway := {|
  K := ToyK;
  sleep := @sleep toy;
  AfterPropertiesSet := @AfterPropertiesSet toy;
  CreateTPR := @CreateTPR toy;
  GetAllDbs := @GetAllDbs toy;
  GetMetadata := @GetMetadata toy;
  Clean := @Clean toy;
  gc := @gc toy;
  DeleteBuriedTikv := @DeleteBuriedTikv toy;
  WatchTidbs := @WatchTidbs toy;
  supportedOptions := @supportedOptions toy;
  dispatcherRuns := fun k => (k, false);
  imageRegistry := @imageRegistry toy;
  PhaseTidbStarted := @PhaseTidbStarted toy;
  tidbScaleErr := @tidbScaleErr toy;
  ErrUnavailable := @ErrUnavailable toy;
  waitTidbComponentAvailableTimeout := @waitTidbComponentAvailableTimeout toy;
  TidbMax := @TidbMax toy;
  IsPodOk := @IsPodOk toy;
  needUpgrade := @needUpgrade toy;
  upgradeRC := @upgradeRC toy;
  GetPods := @GetPods toy;
  ListPodNames := @ListPodNames toy;
  DeletePods := @DeletePods toy;
  ScaleReplicationController := @ScaleReplicationController toy;
  httpGet := @httpGet toy;
  RetryError := @RetryError toy;
  IsNotFound := @IsNotFound toy;
  JobCreate := @JobCreate toy;
  JobGet := @JobGet toy;
  JobDelete := @JobDelete toy;
  DeletePodsByLabel := @DeletePodsByLabel toy
|}.

(** A cluster "c1" with three replicas, started, and its pods. *)
Definition c1 (rv : string) : Db :=
  mkDb (mkMeta "c1" rv)
       (mkStatus 6 0 ["10.0.0.1:30004"] ["10.0.0.1:30080"])
       (mkTidb (mkSpec "v2" 3) [] "")
       (mkTikv [mkStore "tikv-c1-001" false]).

Definition pod (name image : string) : Pod := mkPod name image true.

Definition pods3 : list Pod := [pod "tidb-c1-a" "v1"; pod "tidb-c1-b" "v2"; pod "tidb-c1-c" "v1"].

(** The platform of a healthy "c1": one cluster listed at version "7". *)
Definition k0 : ToyK :=
  mkToyK [] [inr (Some (mkDbList (mkMeta "" "7") [c1 "100"]))] None None
         (inr (mkStream [] false)) 10
         (inr pods3) (inr ["tidb-c1-a"; "tidb-c1-b"; "tidb-c1-c"]) None None None
         (mkJob "job1" 1, None) None.

Definition with_watch (lists : list (error + option DbList)) (x : error + Stream) (k : ToyK) : ToyK :=
  mkToyK (toy_tpr k) lists (toy_clean k) (toy_gc k) x (toy_max k)
         (toy_pods k) (toy_names k) (toy_delete k) (toy_scale k) (toy_http k)
         (toy_job k) (toy_jobdel k).

Definition with_clean (e : option error) (k : ToyK) : ToyK :=
  mkToyK (toy_tpr k) (toy_lists k) e (toy_gc k) (toy_watch k) (toy_max k)
         (toy_pods k) (toy_names k) (toy_delete k) (toy_scale k) (toy_http k)
         (toy_job k) (toy_jobdel k).

Definition with_tpr (l : list (option error)) (k : ToyK) : ToyK :=
  mkToyK l (toy_lists k) (toy_clean k) (toy_gc k) (toy_watch k) (toy_max k)
         (toy_pods k) (toy_names k) (toy_delete k) (toy_scale k) (toy_http k)
         (toy_job k) (toy_jobdel k).

Definition start (k : ToyK) : @World toy := @mkWorld toy k [].

Definition watcher0 : @Watch.Watcher := Watch.NewWatcher PVProvisionerNone "node1".

(** The watcher that tracks "c1" at resource version "100". *)
Definition watcher1 : @Watch.Watcher :=
  Watch.mkWatcher PVProvisionerNone "node1" {[ "c1" := c1 "100" ]} {[ "c1" := "100" ]}
                  (Some NilPVProvisioner).

(** A cluster "c0" that is still pending. *)
Definition c0 : Db :=
  mkDb (mkMeta "c0" "1") (mkStatus 5 0 [] []) (mkTidb (mkSpec "v2" 3) [] "") (mkTikv []).

(** Scenarios for [Run]. *)


(** The platform closes the stream before any event. *)
Definition kClosed : ToyK := with_watch (toy_lists k0) (inr (mkStream [] true)) k0.



Definition watcherSeeded : Watch.Watcher :=
  Watch.set_pvProvisioner NilPVProvisioner (Watch.seed (G:=toy) watcher0 [c1 "100"]).



(** The stream yields 410; the relist shows what the cache holds. *)
Definition kGoneStable : ToyK :=
  with_watch [inr (Some (mkDbList (mkMeta "" "7") [c1 "100"]));
              inr (Some (mkDbList (mkMeta "" "9") [c1 "100"]))]
             (inr (mkStream [PStatus 410 "too old resource version" None] true)) k0.

(** "c1" is modified to resource version "101", then the stream yields 410;
    the relist shows "c1" at "101". *)
Definition kModifiedGone : ToyK :=
  with_watch [inr (Some (mkDbList (mkMeta "" "7") [c1 "100"]));
              inr (Some (mkDbList (mkMeta "" "9") [c1 "101"]))]
             (inr (mkStream [PEvent (mkEvent Modified (c1 "101"));
                             PStatus 410 "too old resource version" None] true)) k0.

(** The cleanup of the provisioner fails. *)
Definition kCleanFails : ToyK := with_clean (Some "clean failed") k0.

(** Registering the resource type fails twice, then succeeds. *)
Definition kRetry : ToyK := with_tpr [Some "apiserver down"; Some "apiserver down"] k0.

End Toy.

(** The scripted platform, for installing: two proxies, a service with the
    node ports 30004 and 30080. *)
Module Toy2.
Import Toy.

Definition toyInstaller : @Installer toy := {|
  PhaseTidbPending := 5;
  PhaseTidbStartFailed := 7;
  waitPodRuningTimeout := 60 * Second;
  tidbServiceYaml := "kind: Service";
  tidbRcYaml := "kind: ReplicationController";
  toJSONTemplate := fun _ temp => inr temp;
  update := fun _ (k : @K toy) => (k, None);
  CreateServiceByJSON := fun _ (k : @K toy) => (k, inr [30004; 30080]);
  getProxys := fun _ => ["10.0.0.1"; "10.0.0.2"];
  CreateRcByJSON := fun _ _ _ (k : @K toy) => (k, None);
  DelRc := fun _ (k : @K toy) => (k, None);
  DelSrvs := fun _ (k : @K toy) => (k, None)
|}.

(** "c1" with no outer address yet. *)
Definition c1bare : Db :=
  mkDb (mkMeta "c1" "100") (mkStatus 6 0 [] []) (mkTidb (mkSpec "v2" 3) [] "")
       (mkTikv [mkStore "tikv-c1-001" false]).

(** A platform on which the deletion of pods fails. *)
Definition kNoDelete : ToyK :=
  mkToyK [] [] None None (inl "") 10 (inr [mkPod "tidb-c1-a" "v2" false; pod "tidb-c1-b" "v2"])
         (inr []) (Some "forbidden") None None (mkJob "job1" 1, None) None.

(** Two pods are down and the deletion of pods fails. *)
Definition kTwoDown : ToyK :=
  mkToyK [] [] None None (inl "") 10
         (inr [mkPod "tidb-c1-a" "v2" false; mkPod "tidb-c1-b" "v2" false])
         (inr []) (Some "forbidden") None None (mkJob "job1" 1, None) None.

(** A platform whose status endpoint does not answer. *)
Definition kNoStatus : ToyK :=
  mkToyK [] [] None None (inl "") 10 (inr pods3) (inr []) None None (Some "timeout")
         (mkJob "job1" 1, None) None.

(** A platform whose pods all run "v2" already. *)
Definition kUpToDate : ToyK :=
  mkToyK [] [] None None (inl "") 10 (inr [pod "tidb-c1-a" "v2"; pod "tidb-c1-b" "v2"])
         (inr []) None None None (mkJob "job1" 1, None) None.

(** A platform on which the pods cannot be listed. *)
Definition kNoList : ToyK :=
  mkToyK [] [] None None (inl "") 10 (inl "apiserver down")
         (inr []) None None None (mkJob "job1" 1, None) None.

(** [k0] once its clusters were listed, and the world of the startup then. *)
Definition k0Listed : ToyK := (pop_list k0).1.

Definition listed : @World toy := @mkWorld toy k0Listed [ACreateTPR; AGetAllDbs].

(** A watcher configured with a provisioner that is not supported. *)
Definition watcherNfs : Watch.Watcher := Watch.NewWatcher (PVProvisionerOther "nfs") "node1".

End Toy2.

(** ** Notions the properties are stated with *)

Module Notions.
Section Notions.
Context `{G : Gateway}.

(** The world after more logged actions that leave the platform alone. *)
Definition logged (world : World) (acts : list Action) : World :=
  mkWorld (plat world) (log world ++ acts).

(** The resource versions of a relisted set, by name. *)
Definition versionsOf (cur : list Db) : gmap string string :=
  list_to_map (map (fun cd => (Name (db_Metadata cd), ResourceVersion (db_Metadata cd))) cur).

(** Every action a monadic program adds to the log satisfies [P]. *)
Definition grows {A} (P : Action -> Prop) (m : M A) : Prop :=
  forall w, exists l, log (world_of (m w)) = log w ++ l /\ Forall P l.

(** A program that never panics. *)
Definition total {A} (m : M A) : Prop :=
  forall w, exists w' a, m w = Ok w' a.

(** What the health gate of cluster [cell] does when it asks [url]. *)
Definition gateAction (cell url : string) (a : Action) : Prop :=
  a = AGetPods cell "tidb" \/ a = AHttpGet url (2 * Second)
  \/ a = AListPodNames cell "tidb" \/ a = ASleep (3 * Second).

(** The scale validation in the words of the specification, over the
    integers: the first violated rule, in the order max, minimum of two,
    scale-out of at most three times, scale-down of at most one third. *)
Definition scaleViolation (max c r : Z) : option error :=
  if r >? max then Some ("the replicas of tidb exceeds max " +:+ pretty max)
  else if r <? 2 then Some "replicas must be greater than 2"
  else if r >? 3 * c then Some "each scale out can not more then 2 times"
  else if (c - r) * 3 >? c then Some "each scale dowm can not be less than one-third"
  else None.

(** The audit message of a scale from [c] to [r]. *)
Definition scaleMessage (db : Db) (c r : Z) : string :=
  "Scale tidb '" +:+ GetName db +:+ "' replicas from " +:+ pretty c +:+ " to " +:+ pretty r.

(** The cluster after a scale that ended with [err]: an error sets the
    scale-error bit. *)
Definition flagged (err : option error) (db : Db) : Db :=
  match err with
  | Some _ => set_ScaleState (Z.lor (ScaleState (db_Status db)) tidbScaleErr) db
  | None => db
  end.

(** What the health gate leaves alone: everything but the membership list. *)
Definition sameCore (a b : Db) : Prop :=
  db_Metadata b = db_Metadata a /\ db_Status b = db_Status a
  /\ td_Spec (db_Tidb b) = td_Spec (db_Tidb a) /\ td_cur (db_Tidb b) = td_cur (db_Tidb a)
  /\ db_Tikv b = db_Tikv a.

(** The URL the gate of [db] asks: its first outer status address, or the pod
    in [cur]. *)
Definition gateURL (db : Db) : string :=
  Operator.statusURL (hd "" (OuterStatusAddresses (db_Status db))) db.

(** The world after [time.Sleep d]. *)
Definition slept (d : Z) (w : World) : World :=
  mkWorld (sleep d (plat w)) (log w ++ [ASleep d]).

(** An answer of a retried condition that is not a success. *)
Definition failed (r : bool * option error) : Prop := r <> (true, None).




Definition isSleep (d : Z) (a : Action) : bool :=
  match a with ASleep d' => d' =? d | _ => false end.

Definition countActs (P : Action -> bool) (l : list Action) : nat :=
  length (List.filter P l).

(** The URL the gate asks while pod [p] of [db] is being replaced. *)
Definition podURL (db : Db) (p : string) : string := gateURL (set_cur p db).

(** What the attempt in which the gate succeeds does. *)
Definition gateSuccess (cell url : string) : list Action :=
  [AGetPods cell "tidb"; AHttpGet url (2 * Second); AListPodNames cell "tidb"].

(** The audit event of an upgrade. *)
Definition upgradeTrace (db : Db) (err : option error) : Action :=
  ATrace (GetName db) "tidb/tidb" "upgrate" err
         ("Upgrate tidb to version: " +:+ Operator.td_Version db).

(** A rolling replacement in the words of the specification: one cycle per
    pod, in order, each a deletion, the grace period of 8 seconds and the
    health gate of that pod, the gate of a pod ending before the next pod is
    deleted. [Rolling db begun ok l]: the log [l] is that of the cycles of the
    pods [begun]; [ok] tells whether all of them succeeded; a failed cycle (the
    deletion failed, or the gate did) is the last one. *)
Inductive Rolling (db : Db) : list string -> bool -> list Action -> Prop :=
| rolling_done : Rolling db [] true []
| rolling_cycle (p : string) (ps : list string) (ok : bool) (g l : list Action) :
    Forall (gateAction (GetName db) (podURL db p)) g ->
    Rolling db ps ok l ->
    Rolling db (p :: ps) ok
      (ADeletePods p :: ASleep (8 * Second)
       :: g ++ gateSuccess (GetName db) (podURL db p) ++ l)
| rolling_delete_failed (p : string) : Rolling db [p] false [ADeletePods p]
| rolling_gate_failed (p : string) (g : list Action) :
    Forall (gateAction (GetName db) (podURL db p)) g ->
    Rolling db [p] false (ADeletePods p :: ASleep (8 * Second) :: g).

(** What [initResource] does, and what the startup loop does. *)
Definition initAction (a : Action) : Prop :=
  a = ACreateTPR \/ a = AGetAllDbs \/ a = AGetMetadata.

Definition startupAction (a : Action) : Prop :=
  initAction a \/ a = ASleep Watch.initRetryWaitTime.


(** What the dispatcher adds to the log. *)
Definition dispatcherAction (a : Action) : Prop :=
  (exists o n pv, a = AGc o n pv) \/ exists msg, a = ALogWarn msg.

(** The version cache once the dispatcher is past the map updates of the
    event it holds. *)
Definition cacheAfter (w : Watch.Watcher) (d : Watch.Dispatcher) : gmap string string :=
  match d with
  | Watch.Received ev => Watch.dbRVs (Watch.handleMaps w ev).1
  | _ => Watch.dbRVs w
  end.

(** The dispatcher got from [(w, d)] to [(w', d')] with the event it holds:
    the cache is as it was or as that event leaves it. *)
Definition advanced (w : Watch.Watcher) (d : Watch.Dispatcher)
    (w' : Watch.Watcher) (d' : Watch.Dispatcher) : Prop :=
  cacheAfter w' d' = cacheAfter w d
  /\ (Watch.dbRVs w' = Watch.dbRVs w \/ Watch.dbRVs w' = cacheAfter w d).

(** The store shows the cache [pre], or already the cache [post] that the
    event in the dispatcher's hands leads to. *)
Definition view (pre post : gmap string string) (w : Watch.Watcher) (d : Watch.Dispatcher)
    : Prop :=
  cacheAfter w d = post /\ (Watch.dbRVs w = pre \/ Watch.dbRVs w = post).

(** The stability check on a cache that is written while the check reads it:
    the check reads the size of the cache and then looks up one relisted
    cluster after the other; its first [n] reads see the cache [pre], the
    others the cache [post]. *)
Fixpoint anyChangedFrom (pre post : gmap string string) (n : nat) (currentDbs : list Db) : bool :=
  match currentDbs with
  | [] => false
  | cd :: rest =>
      match (match n with O => post | S _ => pre end) !! Name (db_Metadata cd) with
      | None => true
      | Some rv =>
          if bool_decide (rv = ResourceVersion (db_Metadata cd))
          then anyChangedFrom pre post (pred n) rest
          else true
      end
  end.

Definition unstableDuring (pre post : gmap string string) (n : nat) (currentDbs : list Db) : bool :=
  if bool_decide (size (match n with O => post | S _ => pre end) = length currentDbs)
  then anyChangedFrom pre post (pred n) currentDbs
  else true.

End Notions.
End Notions.
Export Notions.

(** ** Notions for the further properties *)

Module Notions2.
Section Notions2.
Context `{G : Gateway}.
Import Watch.

(** The two maps of the watcher are in step: the version map is the cluster
    map read through the resource version, and every cluster is stored under
    its own name. *)
Definition inStep (w : Watcher) : Prop :=
  dbRVs w = (fun db => ResourceVersion (db_Metadata db)) <$> dbs w
  /\ forall name db, dbs w !! name = Some db -> GetName db = name.

Definition isDeleteBuried (a : Action) : bool :=
  match a with ADeleteBuriedTikv _ => true | _ => false end.

Definition isDeletePods (a : Action) : bool :=
  match a with ADeletePods _ => true | _ => false end.

(** Deletions of pods made one after the other from the platform state [k],
    each in the state the one before has left: [Deletes k names k' e]. A
    deletion that fails is the last one, and [e] is its error; [k'] is the
    state after the last deletion. *)
Inductive Deletes : K -> list string -> K -> option error -> Prop :=
| deletes_none (k : K) : Deletes k [] k None
| deletes_next (k : K) (p : string) (k1 : K) (ps : list string) (k' : K) (e : option error) :
    DeletePods p k = (k1, None) -> Deletes k1 ps k' e -> Deletes k (p :: ps) k' e
| deletes_failed (k : K) (p : string) (k1 : K) (err : error) :
    DeletePods p k = (k1, Some err) -> Deletes k [p] k1 (Some err).

End Notions2.
End Notions2.
Export Notions2.

(** * Properties *)

(** ** The event handler and the stability check *)

Section WatcherProperties.
Context `{G : Gateway}.
Import Watch.

Lemma handle_unknown (w : Watcher) (ev : Event) (world : World) :
  (ev_Type ev = Modified \/ ev_Type ev = Deleted) ->
  dbs w !! GetName (AfterPropertiesSet (ev_Object ev)) = None ->
  handleTidbEvent w ev world = Ok world (w, Some (unsafe_state (ev_Type ev))).
Proof.
  intros [Ht | Ht] Hn; unfold handleTidbEvent; rewrite Ht, Hn; reflexivity.
Qed.

(** C2. A Modified or Deleted event for a name the cluster map does not hold:
    the handler answers the "unsafe state" error, both maps (the whole
    watcher) and the platform are as before, nothing panics, and the
    dispatcher logs a warning and goes on with the events that follow. *)
Theorem C2_unknown_cluster_is_unsafe_state (w : Watcher) (ev : Event) (world : World) :
  (ev_Type ev = Modified \/ ev_Type ev = Deleted) ->
  dbs w !! GetName (AfterPropertiesSet (ev_Object ev)) = None ->
  handleTidbEvent w ev world
    = Ok world (w, Some ("unsafe state. tidb was never created but we received event ("
                         +:+ EventType_string (ev_Type ev) +:+ ")"))
  /\ forall rest : list Event,
       dispatch w (ev :: rest) world
       = dispatch w rest
           (logged world [ALogWarn ("fail to handle event: " +:+ unsafe_state (ev_Type ev))]).
Proof.
  intros Ht Hn. pose proof (handle_unknown w ev world Ht Hn) as H.
  split; [exact H |].
  intros rest. cbn [dispatch]. unfold bind at 1, dispatch1. unfold bind at 1.
  rewrite H. reflexivity.
Qed.

(** C8, as the code has it. A Deleted event for a tracked name removes the
    name from both maps; the garbage cleanup that follows is called with a nil
    cluster and a nil target, because the cluster is looked up in the map it
    was just deleted from. *)
Theorem C8_deleted_calls_gc_with_nil_cluster (w : Watcher) (ev : Event) (world : World) :
  ev_Type ev = Deleted ->
  is_Some (dbs w !! GetName (AfterPropertiesSet (ev_Object ev))) ->
  let name := GetName (AfterPropertiesSet (ev_Object ev)) in
  let w' := set_maps (delete name (dbs w)) (delete name (dbRVs w)) w in
  let answer := gc None None (pvProvisioner w) (plat world) in
  handleTidbEvent w ev world
    = Ok (mkWorld answer.1 (log world ++ [AGc None None (pvProvisioner w)])) (w', answer.2)
  /\ dbs w' !! name = None /\ dbRVs w' !! name = None.
Proof.
  intros Ht [d Hd]. cbn zeta.
  split; [| split; cbn; apply lookup_delete_eq].
  unfold handleTidbEvent. rewrite Ht, Hd. cbn [dbs set_maps pvProvisioner].
  rewrite lookup_delete_eq. unfold bind, call, ret.
  destruct (gc None None (pvProvisioner w) (plat world)) as [k e]. reflexivity.
Qed.

Lemma anyChanged_false (rvs : gmap string string) (cur : list Db) :
  anyChanged rvs cur = false
  <-> Forall (fun cd => rvs !! Name (db_Metadata cd) = Some (ResourceVersion (db_Metadata cd))) cur.
Proof.
  induction cur as [| cd rest IH]; cbn.
  - split; [constructor | reflexivity].
  - destruct (rvs !! Name (db_Metadata cd)) as [rv |] eqn:E.
    + case_bool_decide as Hrv.
      * rewrite IH. split.
        -- intros HF. constructor; [congruence | exact HF].
        -- intros HF. inversion HF; assumption.
      * split; [discriminate |].
        intros HF. inversion HF as [| ? ? Hhd ?]. congruence.
    + split; [discriminate |].
      intros HF. inversion HF as [| ? ? Hhd ?]. congruence.
Qed.

(** The check as the code makes it: equal sizes, and every relisted cluster
    cached under its name with the same resource version. *)
Lemma stable_iff (w : Watcher) (cur : list Db) :
  isDbsCacheUnstable w cur = false
  <-> size (dbRVs w) = length cur
      /\ Forall (fun cd => dbRVs w !! Name (db_Metadata cd)
                           = Some (ResourceVersion (db_Metadata cd))) cur.
Proof.
  unfold isDbsCacheUnstable. case_bool_decide as Hs.
  - rewrite anyChanged_false. tauto.
  - split; [discriminate | tauto].
Qed.

Lemma versionsOf_lookup (cur : list Db) (cd : Db) :
  NoDup (map (fun cd => Name (db_Metadata cd)) cur) ->
  cd ∈ cur ->
  versionsOf cur !! Name (db_Metadata cd) = Some (ResourceVersion (db_Metadata cd)).
Proof.
  intros Hnd Hin. unfold versionsOf.
  apply elem_of_list_to_map_1.
  - rewrite <- list_fmap_compose. exact Hnd.
  - apply (list_elem_of_fmap_2 (fun cd => (Name (db_Metadata cd), ResourceVersion (db_Metadata cd)))).
    exact Hin.
Qed.

Lemma versionsOf_size (cur : list Db) :
  NoDup (map (fun cd => Name (db_Metadata cd)) cur) ->
  size (versionsOf cur) = length cur.
Proof.
  intros Hnd. unfold versionsOf.
  rewrite <- size_dom, dom_list_to_map_L, <- list_fmap_compose.
  rewrite size_list_to_set; [apply length_fmap | exact Hnd].
Qed.

(** C5. For a relisted set of clusters (no name twice), the check reports
    "stable" exactly when the cache and the relisted set have the same size
    and every relisted cluster is cached under its name with the same
    version; and that is exactly when the cache is the name-to-version map of
    the relisted set, so that a name added, a name removed or a version
    changed makes it report "unstable". *)
Theorem C5_stability_check (w : Watcher) (cur : list Db) :
  NoDup (map (fun cd => Name (db_Metadata cd)) cur) ->
  (isDbsCacheUnstable w cur = false
   <-> size (dbRVs w) = length cur
       /\ forall cd, cd ∈ cur ->
            dbRVs w !! Name (db_Metadata cd) = Some (ResourceVersion (db_Metadata cd)))
  /\ (isDbsCacheUnstable w cur = false <-> dbRVs w = versionsOf cur)
  /\ (isDbsCacheUnstable w cur = true <-> dbRVs w <> versionsOf cur).
Proof.
  intros Hnd.
  assert (Heq : isDbsCacheUnstable w cur = false <-> dbRVs w = versionsOf cur).
  { rewrite stable_iff, Forall_forall. split.
    - intros [Hsz Hall].
      symmetry. apply map_subseteq_size_eq.
      + apply map_subseteq_spec. intros name rv Hl.
        apply elem_of_list_to_map_2 in Hl.
        apply list_elem_of_fmap in Hl as [cd [Hp Hin]].
        inversion Hp; subst. apply Hall, Hin.
      + rewrite versionsOf_size by exact Hnd. lia.
    - intros ->. split.
      + apply versionsOf_size, Hnd.
      + intros cd Hin. apply versionsOf_lookup; assumption. }
  split; [| split].
  - rewrite stable_iff, Forall_forall. tauto.
  - exact Heq.
  - rewrite <- Heq. destruct (isDbsCacheUnstable w cur); split; congruence.
Qed.

End WatcherProperties.

(** ** The log of a program *)

Section LogLemmas.
Context `{G : Gateway}.

Lemma append_assoc (a b c : string) : (a +:+ b) +:+ c = a +:+ (b +:+ c).
Proof.
  induction a as [| x a IH]; [reflexivity |].
  change (String x ((a +:+ b) +:+ c) = String x (a +:+ (b +:+ c))). rewrite IH. reflexivity.
Qed.

Lemma call_eq {A} (act : Action) (f : K -> K * A) (w : World) :
  call act f w = Ok (mkWorld (f (plat w)).1 (log w ++ [act])) (f (plat w)).2.
Proof. unfold call. destruct (f (plat w)); reflexivity. Qed.

Lemma total_ret {A} (a : A) : total (ret a).
Proof. intros w. unfold ret. eauto. Qed.

Lemma total_call {A} (act : Action) (f : K -> K * A) : total (call act f).
Proof. intros w. rewrite call_eq. eauto. Qed.

Lemma total_emit (act : Action) : total (emit act).
Proof. intros w. unfold emit. eauto. Qed.

Lemma total_bind {A B} (m : M A) (f : A -> M B) :
  total m -> (forall a, total (f a)) -> total (bind m f).
Proof.
  intros Hm Hf w. destruct (Hm w) as (w1 & a & E). unfold bind. rewrite E. apply Hf.
Qed.

Lemma grows_ret {A} (P : Action -> Prop) (a : A) : grows P (ret a).
Proof. intros w. exists []. cbn. rewrite app_nil_r. auto. Qed.

Lemma grows_panic {A} (P : Action -> Prop) : grows P (@panic G A).
Proof. intros w. exists []. cbn. rewrite app_nil_r. auto. Qed.

Lemma grows_call {A} (P : Action -> Prop) (act : Action) (f : K -> K * A) :
  P act -> grows P (call act f).
Proof.
  intros HP w. exists [act]. unfold call.
  destruct (f (plat w)) as [k a]. cbn. auto.
Qed.

Lemma grows_emit (P : Action -> Prop) (act : Action) : P act -> grows P (emit act).
Proof. intros HP w. exists [act]. cbn. auto. Qed.

Lemma grows_Sleep (P : Action -> Prop) (d : Z) : P (ASleep d) -> grows P (Sleep d).
Proof. intros HP w. exists [ASleep d]. cbn. auto. Qed.

Lemma grows_bind {A B} (P : Action -> Prop) (m : M A) (f : A -> M B) :
  grows P m -> (forall a, grows P (f a)) -> grows P (bind m f).
Proof.
  intros Hm Hf w. destruct (Hm w) as [l1 [E1 F1]]. unfold bind.
  destruct (m w) as [w1 a | w1]; cbn in E1.
  - destruct (Hf a w1) as [l2 [E2 F2]]. exists (l1 ++ l2).
    rewrite E2, E1, app_assoc. split; [reflexivity | apply Forall_app; auto].
  - exists l1. cbn. auto.
Qed.


Lemma grows_bind_post {A B} (P : Action -> Prop) (Q : A -> Prop) (m : M A) (f : A -> M B) :
  grows P m -> (forall w w' a, m w = Ok w' a -> Q a) -> (forall a, Q a -> grows P (f a)) ->
  grows P (bind m f).
Proof.
  intros Hm HQ Hf w. destruct (Hm w) as [l1 [E1 F1]]. unfold bind.
  destruct (m w) as [w1 a | w1] eqn:Em; cbn in E1.
  - destruct (Hf a (HQ _ _ _ Em) w1) as [l2 [E2 F2]]. exists (l1 ++ l2).
    rewrite E2, E1, app_assoc. split; [reflexivity | apply Forall_app; auto].
  - exists l1. cbn. auto.
Qed.

(** What a retry logs satisfies [P] when what its condition logs does, under
    an invariant of the state of the condition. *)
Lemma grows_retryLoop_inv {St} (P : Action -> Prop) (I : St -> Prop) (interval maxRetries : Z)
    (n : nat) (f : St -> M (St * (bool * option error))) :
  P (ASleep interval) ->
  (forall s w w' r, I s -> f s w = Ok w' r -> I r.1) ->
  (forall s, I s -> grows P (f s)) ->
  forall s, I s -> grows P (retryLoop interval maxRetries n f s).
Proof.
  intros HS HI Hf. induction n as [| n IH]; intros s Hs; cbn [retryLoop].
  - apply grows_ret.
  - apply (grows_bind_post P (fun r => I r.1)); [apply Hf, Hs | |].
    + intros w w' a Ha. eapply HI; eauto.
    + intros [s' [[] [e |]]] Hs'; cbn in *;
        try (apply grows_ret);
        (apply grows_bind; [destruct n; [apply grows_ret | apply grows_Sleep, HS]
                           | intros _; apply IH, Hs']).
Qed.

(** A retry that succeeds ends with the attempt that succeeded; what it
    logged before that attempt satisfies [P]. *)
Lemma retryLoop_success_log {St} (P : Action -> Prop) (I : St -> Prop)
    (interval maxRetries : Z) (f : St -> M (St * (bool * option error))) :
  P (ASleep interval) ->
  (forall s w w' r, I s -> f s w = Ok w' r -> I r.1) ->
  (forall s, I s -> grows P (f s)) ->
  forall (n : nat) s w w' s',
    I s -> retryLoop interval maxRetries n f s w = Ok w' (s', None) ->
    exists s0 w0 l0, I s0 /\ f s0 w0 = Ok w' (s', (true, None))
                     /\ log w0 = log w ++ l0 /\ Forall P l0.
Proof.
  intros HS HI Hf. induction n as [| n IH]; intros s w w' s' Hs; cbn [retryLoop].
  - discriminate.
  - unfold bind at 1. destruct (f s w) as [w1 [s1 r] | w1] eqn:Ef; [| discriminate].
    pose proof (HI _ _ _ _ Hs Ef) as Hs1. cbn in Hs1.
    destruct (Hf s Hs w) as [l1 [E1 F1]]. rewrite Ef in E1. cbn in E1.
    assert (Hfail :
      (match n with O => ret tt | S _ => Sleep interval end ;;;
       retryLoop interval maxRetries n f s1)%go w1 = Ok w' (s', None) ->
      exists s0 w0 l0, I s0 /\ f s0 w0 = Ok w' (s', (true, None))
                       /\ log w0 = log w ++ l0 /\ Forall P l0).
    { unfold bind. destruct n as [| n'].
      - cbn. discriminate.
      - unfold Sleep. intros Hrun.
        destruct (IH _ _ _ _ Hs1 Hrun) as (s0 & w0 & l0 & Hs0 & Hlast & El & Fl).
        exists s0, w0, (l1 ++ [ASleep interval] ++ l0). cbn in El.
        split; [exact Hs0 |]. split; [exact Hlast |].
        split; [rewrite El, E1, <- !app_assoc; reflexivity |].
        apply Forall_app; split; [exact F1 |]. apply Forall_app; split; [| exact Fl].
        constructor; [exact HS | constructor]. }
    destruct r as [[] [e |]]; cbn [snd]; try exact Hfail.
    unfold ret. intros [= <- <-]. exists s, w, [].
    rewrite app_nil_r. split; [exact Hs |]. split; [exact Ef |]. split; [reflexivity | constructor].
Qed.

(** An invariant of the condition is an invariant of the retry. *)
Lemma retryLoop_inv {St} (R : St -> St -> Prop) (interval maxRetries : Z)
    (f : St -> M (St * (bool * option error))) :
  (forall s, R s s) -> (forall a b c, R a b -> R b c -> R a c) ->
  (forall s w w' r, f s w = Ok w' r -> R s r.1) ->
  forall n s w w' r, retryLoop interval maxRetries n f s w = Ok w' r -> R s r.1.
Proof.
  intros Hrefl Htrans Hf. induction n as [| n IH]; intros s w w' r; cbn [retryLoop].
  - unfold ret. intros [= <- <-]. apply Hrefl.
  - unfold bind at 1. destruct (f s w) as [w1 [s1 [ok e]] | w1] eqn:Ef; [| discriminate].
    apply Hf in Ef. cbn in Ef.
    assert (Hrest : forall w2, retryLoop interval maxRetries n f s1 w2 = Ok w' r -> R s r.1).
    { intros w2 H2. eapply Htrans; [exact Ef | eapply IH; exact H2]. }
    destruct ok, e; cbn [snd fst]; unfold bind;
      try (destruct n; cbn; apply Hrest).
    unfold ret. intros [= <- <-]. exact Ef.
Qed.

End LogLemmas.

(** ** The reconciler of the tidb role *)

Section OperatorProperties.
Context `{G : Gateway}.
Import Operator.

Lemma sameCore_refl (a : Db) : sameCore a a.
Proof. repeat split. Qed.

Lemma sameCore_trans (a b c : Db) : sameCore a b -> sameCore b c -> sameCore a c.
Proof. unfold sameCore. intros (?&?&?&?&?) (?&?&?&?&?). repeat split; congruence. Qed.

Lemma syncMembers_core (db : Db) (w w' : World) (r : Db * option error) :
  syncMembers db w = Ok w' r -> sameCore db r.1.
Proof.
  unfold syncMembers, bind, call.
  destruct (ListPodNames (GetName db) "tidb" (plat w)) as [k [e | names]];
    unfold ret; intros [= <- <-]; repeat split.
Qed.

Lemma poll_core (url : string) (db : Db) (w w' : World) (r : Db * (bool * option error)) :
  waitForOk_poll url db w = Ok w' r -> sameCore db r.1.
Proof.
  unfold waitForOk_poll, bind at 1, call at 1.
  destruct (GetPods (GetName db) "tidb" (plat w)) as [k [e | pods]].
  - unfold ret. intros [= <- <-]. apply sameCore_refl.
  - destruct (negb (countOk pods 0 =? td_Replicas db)).
    + unfold ret. intros [= <- <-]. apply sameCore_refl.
    + unfold bind at 1, call at 1.
      destruct (httpGet _ _ _) as [k2 [e |]].
      * unfold ret. intros [= <- <-]. apply sameCore_refl.
      * unfold bind at 1.
        destruct (syncMembers db _) as [w3 [db3 e3] | w3] eqn:Es; [| discriminate].
        apply syncMembers_core in Es. cbn in Es.
        destruct e3; unfold ret; cbn; intros [= <- <-]; exact Es.
Qed.

Lemma waitForOk_core (db : Db) (w w' : World) (r : Db * option error) :
  waitForOk db w = Ok w' r -> sameCore db r.1.
Proof.
  unfold waitForOk. destruct (OuterStatusAddresses (db_Status db)) as [| first rest];
    [discriminate |].
  unfold Retry. apply (retryLoop_inv sameCore).
  - apply sameCore_refl.
  - apply sameCore_trans.
  - intros s ? ? ?. apply poll_core.
Qed.

Lemma poll_grows (cell url : string) (db : Db) :
  GetName db = cell -> grows (gateAction cell url) (waitForOk_poll url db).
Proof.
  intros <-. unfold waitForOk_poll.
  apply grows_bind; [apply grows_call; left; reflexivity |].
  intros [e | pods]; [apply grows_ret |].
  destruct (negb _); [apply grows_ret |].
  apply grows_bind; [apply grows_call; right; left; reflexivity |].
  intros [e |]; [apply grows_ret |].
  apply grows_bind.
  - unfold syncMembers. apply grows_bind; [apply grows_call; right; right; left; reflexivity |].
    intros [e | names]; apply grows_ret.
  - intros [db' [e |]]; apply grows_ret.
Qed.

Lemma waitForOk_grows (db : Db) :
  grows (gateAction (GetName db) (gateURL db)) (waitForOk db).
Proof.
  unfold waitForOk, gateURL.
  destruct (OuterStatusAddresses (db_Status db)) as [| first rest]; [apply grows_panic |].
  cbn [hd]. unfold Retry.
  apply (grows_retryLoop_inv _ (sameCore db)).
  - right; right; right; reflexivity.
  - intros s w w' r Hs Hf. eapply sameCore_trans; [exact Hs | eapply poll_core; exact Hf].
  - intros s Hs. apply poll_grows. destruct Hs as [Hm _]. unfold GetName. congruence.
  - apply sameCore_refl.
Qed.

Lemma wrap64_small (z : Z) : - 2 ^ 63 <= z < 2 ^ 63 -> wrap64 z = z.
Proof.
  intros Hz. unfold wrap64. rewrite Z.mod_small; lia.
Qed.

(** C9. Before the phase Started, [upgrade] answers [ErrUnavailable]: the
    platform is untouched (no image update, no pod deleted), and the only
    thing logged is the audit event with the failure. *)
Theorem C9_upgrade_before_started (db : Db) (world : World) :
  Phase (db_Status db) < PhaseTidbStarted ->
  upgrade db world
  = Ok (logged world [ATrace (GetName db) "tidb/tidb" "upgrate" (Some ErrUnavailable)
                             ("Upgrate tidb to version: " +:+ td_Version db)])
       (set_cur "" db, Some ErrUnavailable).
Proof.
  intros Hp. apply Z.ltb_lt in Hp.
  unfold upgrade, bind, deferred_on_panic, upgradeBody. rewrite Hp. reflexivity.
Qed.

Lemma scaleViolation_cases (max c r : Z) :
  is_Some (scaleViolation max c r) <-> r > max \/ r < 2 \/ r > 3 * c \/ (c - r) * 3 > c.
Proof.
  unfold scaleViolation.
  destruct (Z.gtb_spec r max); [split; [lia | eauto] |].
  destruct (Z.ltb_spec r 2); [split; [lia | eauto] |].
  destruct (Z.gtb_spec r (3 * c)); [split; [lia | eauto] |].
  destruct (Z.gtb_spec ((c - r) * 3) c); [split; [lia | eauto] |].
  split; [intros [x Hx]; discriminate | lia].
Qed.

(** The checks of the code are those of the specification while the current
    count is far from the ends of a 64-bit integer. *)
Lemma scaleBody_checks (db : Db) (r : Z) (world : World) :
  - 2 ^ 60 <= td_Replicas db < 2 ^ 60 ->
  scaleBody db r world
  = match scaleViolation (TidbMax (plat world)) (td_Replicas db) r with
    | Some err => Ok world (db, Some err)
    | None =>
        bind (call (AScaleReplicationController ("tidb-" +:+ GetName db) r)
                   (ScaleReplicationController ("tidb-" +:+ GetName db) r))
             (fun e => match e with
                       | Some err => ret (set_Replicas r db, Some err)
                       | None => waitForOk (set_Replicas r db)
                       end) world
    end.
Proof.
  intros Hc. unfold scaleBody, scaleViolation, bind at 1, ask.
  cbn [plat]. set (c := td_Replicas db) in *. set (max := TidbMax (plat world)).
  destruct (Z.gtb_spec r max); [reflexivity |].
  destruct (Z.ltb_spec r 2); [reflexivity |].
  rewrite (wrap64_small (c * 3)) by lia.
  replace (c * 3) with (3 * c) by lia.
  destruct (Z.gtb_spec r (3 * c)); [reflexivity |].
  rewrite (wrap64_small (c - r)) by lia.
  rewrite (wrap64_small ((c - r) * 3)) by lia.
  destruct (Z.gtb_spec ((c - r) * 3) c); reflexivity.
Qed.

Lemma reconcileTidbs_scale (db : Db) (r : Z) (world : World) :
  (r <? 1) || (r =? td_Replicas db) = false ->
  reconcileTidbs db r world
  = match scaleBody db r world with
    | Ok w res =>
        Ok (logged w [ATrace (GetName db) "tidb/tidb" "scale" res.2
                             (scaleMessage db (td_Replicas db) r)])
           (flagged res.2 res.1, res.2)
    | Panic w =>
        Panic (logged w [ATrace (GetName db) "tidb/tidb" "scale" None
                                (scaleMessage db (td_Replicas db) r)])
    end.
Proof.
  intros Hif. unfold reconcileTidbs. rewrite Hif.
  unfold bind, deferred_on_panic, emit, ret.
  destruct (scaleBody db r world) as [w [d [e |]] | w]; reflexivity.
Qed.

(** C3. A scale request for [r] replicas on a role at [c] replicas.
    - [r < 1] or [r = c]: nothing but the status recheck runs and the cluster
      is returned as it was.
    - Otherwise the request is rejected exactly when [r] exceeds the maximum,
      or [r < 2], or [r > 3c], or [(c - r) * 3 > c], the first violated rule
      in that order giving the error; the replica count is still [c], the
      platform is untouched, and only the audit event is logged.
    - Otherwise the replica count is set to [r], the platform is asked once to
      scale to [r], and only the health gate follows; the count is [r] at the
      end. *)
Theorem C3_scale_validation (db : Db) (r : Z) (world : World) :
  let c := td_Replicas db in
  let max := TidbMax (plat world) in
  let name := "tidb-" +:+ GetName db in
  let trace err := ATrace (GetName db) "tidb/tidb" "scale" err (scaleMessage db c r) in
  - 2 ^ 60 <= c < 2 ^ 60 ->
  (r < 1 \/ r = c ->
     reconcileTidbs db r world = bind (checkStatus db) (fun e => ret (db, e)) world)
  /\ (1 <= r -> r <> c ->
      (is_Some (scaleViolation max c r)
       <-> r > max \/ r < 2 \/ r > 3 * c \/ (c - r) * 3 > c)
      /\ match scaleViolation max c r with
         | Some err =>
             reconcileTidbs db r world
             = Ok (logged world [trace (Some err)]) (flagged (Some err) db, Some err)
             /\ td_Replicas (flagged (Some err) db) = c
         | None =>
             let answer := ScaleReplicationController name r (plat world) in
             let world1 := mkWorld answer.1 (log world ++ [AScaleReplicationController name r]) in
             match answer.2 with
             | Some err =>
                 reconcileTidbs db r world
                 = Ok (logged world1 [trace (Some err)])
                      (flagged (Some err) (set_Replicas r db), Some err)
             | None =>
                 (exists gate,
                    log (world_of (waitForOk (set_Replicas r db) world1)) = log world1 ++ gate
                    /\ Forall (gateAction (GetName db) (gateURL db)) gate)
                 /\ match waitForOk (set_Replicas r db) world1 with
                    | Ok w2 res =>
                        reconcileTidbs db r world
                        = Ok (logged w2 [trace res.2]) (flagged res.2 res.1, res.2)
                        /\ td_Replicas (flagged res.2 res.1) = r
                    | Panic w2 => reconcileTidbs db r world = Panic (logged w2 [trace None])
                    end
             end
         end).
Proof.
  intros c max name trace Hc. split.
  - intros Hr. unfold reconcileTidbs.
    replace ((r <? 1) || (r =? td_Replicas db)) with true; [reflexivity |].
    symmetry. apply orb_true_iff. fold c. destruct Hr; [left | right]; lia.
  - intros H1 Hne. split; [apply scaleViolation_cases |].
    assert (Hif : (r <? 1) || (r =? td_Replicas db) = false).
    { apply orb_false_iff. fold c. split; lia. }
    rewrite (reconcileTidbs_scale db r world Hif), (scaleBody_checks db r world Hc).
    fold c max name. fold (scaleMessage db c r).
    destruct (scaleViolation max c r) as [err |].
    + split; reflexivity.
    + cbn zeta. unfold bind, call.
      destruct (ScaleReplicationController name r (plat world)) as [k [err |]]; cbn [fst snd].
      * reflexivity.
      * split.
        -- destruct (waitForOk_grows (set_Replicas r db)
                       (mkWorld k (log world ++ [AScaleReplicationController name r])))
             as [gate [E F]].
           exists gate. split; [exact E | exact F].
        -- cbn [plat log].
           destruct (waitForOk (set_Replicas r db) _) as [w2 [db2 e2] | w2] eqn:Ew.
           ++ split; [reflexivity |].
              apply waitForOk_core in Ew. destruct Ew as (_ & _ & Hs & _).
              cbn in Hs. unfold td_Replicas.
              destruct e2; cbn; rewrite Hs; reflexivity.
           ++ reflexivity.
Qed.

End OperatorProperties.

(** ** Bounded retry *)

Section RetryProperties.
Context `{G : Gateway}.

Lemma countActs_app (P : Action -> bool) (l1 l2 : list Action) :
  countActs P (l1 ++ l2) = (countActs P l1 + countActs P l2)%nat.
Proof. unfold countActs. rewrite List.filter_app, length_app. reflexivity. Qed.






End RetryProperties.

(** ** The health gate and the job helpers *)

Section PollProperties.
Context `{G : Gateway}.
Import Operator K8sutil.

Lemma countOk_spec (pods : list Pod) (count : Z) :
  countOk pods count = count + Z.of_nat (length (List.filter IsPodOk pods)).
Proof.
  revert count. induction pods as [| pod rest IH]; intros count; cbn [countOk List.filter].
  - cbn. lia.
  - rewrite IH. destruct (IsPodOk pod); cbn [length]; lia.
Qed.

(** One iteration of the health gate succeeds exactly when the pods can be
    listed, as many of them are ok as replicas are desired, the status URL
    answers and the pod names can be listed; the members are then those names. *)
Lemma poll_success (url : string) (db db' : Db) (w w' : World) :
  waitForOk_poll url db w = Ok w' (db', (true, None))
  <-> exists k1 pods k2 k3 names,
        GetPods (GetName db) "tidb" (plat w) = (k1, inr pods)
        /\ Z.of_nat (length (List.filter IsPodOk pods)) = td_Replicas db
        /\ httpGet url (2 * Second) k1 = (k2, None)
        /\ ListPodNames (GetName db) "tidb" k2 = (k3, inr names)
        /\ db' = set_Members (map mkMember names) db
        /\ w' = mkWorld k3 (log w ++ [AGetPods (GetName db) "tidb"; AHttpGet url (2 * Second);
                                      AListPodNames (GetName db) "tidb"]).
Proof.
  unfold waitForOk_poll, syncMembers, bind, call, ret. cbn [plat log].
  destruct (GetPods (GetName db) "tidb" (plat w)) as [k1 [e | pods]].
  - split; [discriminate | intros (? & ? & ? & ? & ? & [=] & _)].
  - rewrite countOk_spec, Z.add_0_l.
    destruct (Z.eqb_spec (Z.of_nat (length (List.filter IsPodOk pods))) (td_Replicas db)) as [Hc | Hc];
      cbn [negb plat log].
    + destruct (httpGet url (2 * Second) k1) as [k2 [e |]] eqn:Eh; cbn [plat log].
      * split; [discriminate |].
        intros (? & ? & ? & ? & ? & [= <- <-] & _ & Hh & _). congruence.
      * destruct (ListPodNames (GetName db) "tidb" k2) as [k3 [e | names]] eqn:El;
          cbn [snd fst plat log].
        -- split; [discriminate |].
           intros (? & ? & ? & ? & ? & [= <- <-] & _ & Hh & Hl & _).
           rewrite Eh in Hh. injection Hh as <-. congruence.
        -- rewrite <- !app_assoc. cbn [app]. split.
           ++ intros [= <- <-]. exists k1, pods, k2, k3, names.
              repeat split; assumption.
           ++ intros (? & ? & ? & ? & ? & [= <- <-] & _ & Hh & Hl & -> & ->).
              rewrite Eh in Hh. injection Hh as <-. rewrite El in Hl. injection Hl as <- <-.
              reflexivity.
    + split; [discriminate |].
      intros (? & ? & ? & ? & ? & [= <- <-] & Hc' & _). contradiction.
Qed.





(** C10. [DeleteJob]: when the deletion of the job succeeds, success is
    returned and the pods are not deleted; when it reports not-found, the pods
    labelled with the job name are deleted and the result is that of their
    deletion; any other error is returned as it is. *)
Theorem C10_delete_job (name : string) (world : World) :
  let answer := JobDelete name (plat world) in
  let world1 := mkWorld answer.1 (log world ++ [AJobDelete name]) in
  match answer.2 with
  | None => DeleteJob name world = Ok world1 None
  | Some e =>
      if IsNotFound e
      then DeleteJob name world
           = call (ADeletePodsByLabel "job-name" name) (DeletePodsByLabel "job-name" name) world1
      else DeleteJob name world = Ok world1 (Some e)
  end.
Proof.
  cbn zeta. unfold DeleteJob, bind. rewrite call_eq.
  destruct (JobDelete name (plat world)) as [k [e |]]; cbn [fst snd isNotFound negb].
  - destruct (IsNotFound e); reflexivity.
  - reflexivity.
Qed.

End PollProperties.

(** ** The rolling upgrade *)

Section UpgradeProperties.
Context `{G : Gateway}.
Import Operator.

(** A gate that succeeds logs attempts of the gate and, last, the attempt that
    succeeded. *)
Lemma waitForOk_success_log (db db' : Db) (w w' : World) :
  waitForOk db w = Ok w' (db', None) ->
  exists g, log w' = log w ++ g ++ gateSuccess (GetName db) (gateURL db)
            /\ Forall (gateAction (GetName db) (gateURL db)) g.
Proof.
  unfold waitForOk, gateURL.
  destruct (OuterStatusAddresses (db_Status db)) as [| first rest]; [discriminate |].
  cbn [hd]. unfold Retry. intros Hrun.
  apply (retryLoop_success_log (gateAction (GetName db) (statusURL first db)) (sameCore db))
    in Hrun as (s0 & w0 & g & Hs0 & Hlast & El & Fg).
  2: right; right; right; reflexivity.
  2: { intros s w1 w2 r Hs Hf. eapply sameCore_trans; [exact Hs | eapply poll_core; exact Hf]. }
  2: { intros s Hs. apply poll_grows. destruct Hs as [Hm _]. unfold GetName. congruence. }
  2: apply sameCore_refl.
  apply poll_success in Hlast as (k1 & pods & k2 & k3 & names & _ & _ & _ & _ & _ & ->).
  assert (Hname : GetName s0 = GetName db)
    by (destruct Hs0 as [Hm _]; unfold GetName; congruence).
  exists g. cbn [log]. rewrite El, Hname, <- app_assoc. split; [reflexivity | exact Fg].
Qed.

Lemma podURL_same (db d : Db) (p : string) :
  db_Status d = db_Status db -> gateURL (set_cur p d) = podURL db p.
Proof. intros Hs. unfold podURL, gateURL, statusURL. cbn. rewrite Hs. reflexivity. Qed.

(** One pod of the loop of [upgrade]. *)
Lemma upgradePods_need (pod : Pod) (rest : list Pod) (d : Db) (up : bool) (w : World) :
  needUpgrade pod (td_Version d) = true ->
  upgradePods (pod :: rest) d up w
  = match DeletePods (pod_Name pod) (plat w) with
    | (k, Some err) => Ok (mkWorld k (log w ++ [ADeletePods (pod_Name pod)])) (d, true, Some err)
    | (k, None) =>
        match waitForOk (set_cur (pod_Name pod) d)
                (mkWorld (sleep (8 * Second) k)
                   (log w ++ [ADeletePods (pod_Name pod); ASleep (8 * Second)])) with
        | Ok w3 (d3, Some err) => Ok w3 (d3, true, Some err)
        | Ok w3 (d3, None) => upgradePods rest d3 true w3
        | Panic w3 => Panic w3
        end
    end.
Proof.
  intros Hneed. cbn [upgradePods]. rewrite Hneed. unfold bind at 1. rewrite call_eq.
  destruct (DeletePods (pod_Name pod) (plat w)) as [k [err |]]; cbn [fst snd]; [reflexivity |].
  unfold bind, Sleep. cbn [plat log]. rewrite <- app_assoc. cbn [app].
  destruct (waitForOk _ _) as [w3 [d3 [err |]] | w3]; reflexivity.
Qed.

Lemma upgradePods_skip (pod : Pod) (rest : list Pod) (d : Db) (up : bool) (w : World) :
  needUpgrade pod (td_Version d) = false ->
  upgradePods (pod :: rest) d up w = upgradePods rest d up w.
Proof. intros Hneed. cbn [upgradePods]. rewrite Hneed. reflexivity. Qed.

(** The loop of [upgrade], from any state of the cluster that has the
    metadata, the status and the spec of [db]. *)
Lemma upgradePods_rolling (db : Db) (pods : list Pod) :
  forall (d : Db) (up : bool) (w : World),
    db_Metadata d = db_Metadata db -> db_Status d = db_Status db ->
    td_Spec (db_Tidb d) = td_Spec (db_Tidb db) ->
    let needing := map pod_Name (List.filter (fun p => needUpgrade p (td_Version db)) pods) in
    exists begun ok cycles,
      log (world_of (upgradePods pods d up w)) = log w ++ cycles
      /\ Rolling db begun ok cycles
      /\ (ok = true ->
          begun = needing
          /\ exists w' d', upgradePods pods d up w
                           = Ok w' (d', up || negb (bool_decide (needing = [])), None))
      /\ (ok = false ->
          (exists rest, needing = begun ++ rest)
          /\ ((exists w', upgradePods pods d up w = Panic w')
              \/ exists w' d' e, upgradePods pods d up w = Ok w' (d', true, Some e))).
Proof.
  induction pods as [| pod rest IH]; intros d up w Hm Hst Hsp; cbn zeta.
  - exists [], true, []. cbn. rewrite app_nil_r, orb_false_r.
    split; [reflexivity |]. split; [constructor |]. split; [| discriminate].
    intros _. split; [reflexivity |]. eauto.
  - assert (Hv : td_Version d = td_Version db) by (unfold td_Version; congruence).
    cbn [List.filter]. destruct (needUpgrade pod (td_Version db)) eqn:Hneed.
    + cbn [map]. rewrite upgradePods_need by (rewrite Hv; exact Hneed).
      destruct (DeletePods (pod_Name pod) (plat w)) as [k [err |]].
      * exists [pod_Name pod], false, [ADeletePods (pod_Name pod)]. cbn.
        split; [reflexivity |]. split; [constructor |]. split; [discriminate |].
        intros _. split; [eexists; reflexivity |]. right. eauto.
      * set (w2 := mkWorld (sleep (8 * Second) k)
                     (log w ++ [ADeletePods (pod_Name pod); ASleep (8 * Second)])).
        assert (Hw2 : log w2 = log w ++ [ADeletePods (pod_Name pod); ASleep (8 * Second)])
          by reflexivity.
        pose proof (waitForOk_grows (set_cur (pod_Name pod) d) w2) as [g [Eg Fg]].
        rewrite (podURL_same db d _ Hst) in Fg.
        assert (Hn : GetName (set_cur (pod_Name pod) d) = GetName db)
          by (unfold GetName; cbn; congruence).
        rewrite Hn in Fg.
        destruct (waitForOk (set_cur (pod_Name pod) d) w2) as [w3 [d3 [err |]] | w3] eqn:Ew;
          cbn [world_of snd fst] in *.
        -- exists [pod_Name pod], false,
             (ADeletePods (pod_Name pod) :: ASleep (8 * Second) :: g).
           split; [rewrite Eg, Hw2, <- app_assoc; reflexivity |].
           split; [constructor; exact Fg |]. split; [discriminate |].
           intros _. split; [eexists; reflexivity |]. right. eauto.
        -- pose proof (waitForOk_success_log _ _ _ _ Ew) as [g0 [Eg0 Fg0]].
           rewrite (podURL_same db d _ Hst), Hn in Eg0, Fg0.
           pose proof (waitForOk_core _ _ _ _ Ew) as (Hm3 & Hst3 & Hsp3 & _).
           cbn in Hm3, Hst3, Hsp3.
           destruct (IH d3 true w3) as (begun & ok & cycles & El & HR & Hok & Hbad);
             [congruence | congruence | congruence |].
           exists (pod_Name pod :: begun), ok,
             (ADeletePods (pod_Name pod) :: ASleep (8 * Second)
              :: g0 ++ gateSuccess (GetName db) (podURL db (pod_Name pod)) ++ cycles).
           split; [rewrite El, Eg0, Hw2, <- !app_assoc; reflexivity |].
           split; [constructor; assumption |]. split.
           ++ intros Hokt. destruct (Hok Hokt) as [-> (w' & d' & Hrun)].
              split; [reflexivity |]. exists w', d'. rewrite Hrun.
              rewrite orb_true_l. destruct up; reflexivity.
           ++ intros Hokf. destruct (Hbad Hokf) as [[rest' Hrest] Hres].
              split; [exists rest'; cbn; rewrite Hrest; reflexivity | exact Hres].
        -- exists [pod_Name pod], false,
             (ADeletePods (pod_Name pod) :: ASleep (8 * Second) :: g).
           split; [rewrite Eg, Hw2, <- app_assoc; reflexivity |].
           split; [constructor; exact Fg |]. split; [discriminate |].
           intros _. split; [eexists; reflexivity |]. left. eauto.
    + rewrite upgradePods_skip by (rewrite Hv; exact Hneed).
      destruct (IH d up w Hm Hst Hsp) as (begun & ok & cycles & El & HR & Hok & Hbad).
      exists begun, ok, cycles. auto.
Qed.

(** The loop leaves the spec of the role alone. *)
Lemma upgradePods_spec (pods : list Pod) :
  forall (d : Db) (up : bool) (w w' : World) (r : Db * bool * option error),
    upgradePods pods d up w = Ok w' r -> td_Spec (db_Tidb r.1.1) = td_Spec (db_Tidb d).
Proof.
  induction pods as [| pod rest IH]; intros d up w w' r.
  - cbn. unfold ret. intros [= <- <-]. reflexivity.
  - destruct (needUpgrade pod (td_Version d)) eqn:Hneed.
    + rewrite upgradePods_need by exact Hneed.
      destruct (DeletePods (pod_Name pod) (plat w)) as [k [err |]].
      * intros [= <- <-]. reflexivity.
      * destruct (waitForOk _ _) as [w3 [d3 [err |]] | w3] eqn:Ew; [| | discriminate];
          apply waitForOk_core in Ew; destruct Ew as (_ & _ & Hs & _); cbn in Hs.
        -- intros [= <- <-]. exact Hs.
        -- intros Hrun. apply IH in Hrun. congruence.
    + rewrite upgradePods_skip by exact Hneed. apply IH.
Qed.

(** [upgrade] on a started cluster whose controller was updated and whose
    pods were listed: the loop, then the deferred function. *)
Lemma upgrade_started (db : Db) (world : World) (k1 k2 : K) (pods : list Pod) :
  PhaseTidbStarted <= Phase (db_Status db) ->
  upgradeRC ("tidb-" +:+ GetName db) (imageRegistry +:+ "/tidb:" +:+ td_Version db)
            (td_Version db) (plat world) = (k1, None) ->
  GetPods (GetName db) "tidb" k1 = (k2, inr pods) ->
  upgrade db world
  = match upgradePods pods db false
            (mkWorld k2 (log world ++ [AUpgradeRC ("tidb-" +:+ GetName db)
                                          (imageRegistry +:+ "/tidb:" +:+ td_Version db)
                                          (td_Version db);
                                        AGetPods (GetName db) "tidb"])) with
    | Ok w r =>
        if r.1.2 || bool_decide (is_Some r.2)
        then Ok (logged w [upgradeTrace db r.2]) (set_cur "" r.1.1, r.2)
        else Ok w (set_cur "" r.1.1, r.2)
    | Panic w => Panic (logged w [upgradeTrace db None])
    end.
Proof.
  intros Hp Hrc Hg. apply Z.ltb_ge in Hp.
  unfold upgrade, bind at 1, deferred_on_panic, upgradeBody. rewrite Hp.
  unfold bind at 1. rewrite call_eq, Hrc. cbn [fst snd].
  unfold bind at 1. rewrite call_eq. cbn [plat log]. rewrite Hg. cbn [fst snd].
  rewrite <- app_assoc. cbn [app].
  destruct (upgradePods pods db false _) as [w [[d up] e] | w] eqn:Erun; [| reflexivity].
  apply upgradePods_spec in Erun. cbn in Erun.
  assert (Hv : td_Version (set_cur "" d) = td_Version db)
    by (unfold td_Version; cbn; rewrite Erun; reflexivity).
  cbn [fst snd]. unfold bind, emit, ret, upgradeTrace, logged. rewrite Hv.
  destruct (up || bool_decide (is_Some e)); reflexivity.
Qed.

(** C4. An upgrade of a started cluster, after the image of the controller
    was updated and the pods were listed, [N] of them needing the new image.
    The log of what follows is a rolling replacement: for each pod in turn its
    deletion, a sleep of 8 seconds and the health gate asking that pod, the
    gate of one pod ending before the next pod is deleted. When every cycle
    succeeds the pods cycled are exactly the [N] pods that need the upgrade,
    in the order of the list, and the upgrade succeeds. When a cycle fails it
    is the last one: the pods cycled are a prefix of those [N], the upgrade
    fails, and nothing but the audit event follows (nothing is rolled back). *)
Theorem C4_upgrade_rolls_pod_by_pod (db : Db) (world : World) (k1 k2 : K) (pods : list Pod) :
  PhaseTidbStarted <= Phase (db_Status db) ->
  upgradeRC ("tidb-" +:+ GetName db) (imageRegistry +:+ "/tidb:" +:+ td_Version db)
            (td_Version db) (plat world) = (k1, None) ->
  GetPods (GetName db) "tidb" k1 = (k2, inr pods) ->
  let needing := map pod_Name (List.filter (fun p => needUpgrade p (td_Version db)) pods) in
  let listed := [AUpgradeRC ("tidb-" +:+ GetName db)
                            (imageRegistry +:+ "/tidb:" +:+ td_Version db) (td_Version db);
                 AGetPods (GetName db) "tidb"] in
  (exists begun ok cycles err,
     log (world_of (upgrade db world))
     = log world ++ listed ++ cycles
       ++ (if bool_decide (needing = []) then [] else [upgradeTrace db err])
     /\ Rolling db begun ok cycles
     /\ (ok = true ->
         begun = needing /\ length begun = length needing /\ err = None
         /\ exists w' db', upgrade db world = Ok w' (db', None))
     /\ (ok = false ->
         (exists rest, needing = begun ++ rest)
         /\ ((err = None /\ exists w', upgrade db world = Panic w')
             \/ exists w' db' e, err = Some e /\ upgrade db world = Ok w' (db', Some e))))
  /\ forall p, p <> "" -> podURL db p = "http://" +:+ p +:+ ":10080/status".
Proof.
  intros Hp Hrc Hg needing listed. split.
  - rewrite (upgrade_started db world k1 k2 pods Hp Hrc Hg). fold listed.
    destruct (upgradePods_rolling db pods db false (mkWorld k2 (log world ++ listed))
                eq_refl eq_refl eq_refl)
      as (begun & ok & cycles & El & HR & Hok & Hbad).
    fold needing in Hok, Hbad. cbn [log] in El.
    destruct ok.
    + destruct (Hok eq_refl) as [-> (w' & d' & Hrun)]. clear Hok Hbad.
      rewrite Hrun in *. cbn [world_of fst snd orb] in *.
      exists needing, true, cycles, None.
      split.
      { destruct (bool_decide (needing = [])); cbn.
        - rewrite El, app_nil_r, <- app_assoc. reflexivity.
        - rewrite El, <- !app_assoc. reflexivity. }
      split; [exact HR |]. split; [| discriminate].
      intros _. repeat split.
      destruct (negb (bool_decide (needing = [])) || bool_decide (is_Some None)); eauto.
    + destruct (Hbad eq_refl) as [[rest Hrest] Hres]. clear Hok Hbad.
      assert (Hne : bool_decide (needing = []) = false).
      { apply bool_decide_eq_false. rewrite Hrest. inversion HR; discriminate. }
      rewrite Hne.
      destruct Hres as [[w' Hrun] | (w' & d' & e & Hrun)]; rewrite Hrun in *;
        cbn [world_of fst snd orb] in *.
      * exists begun, false, cycles, None.
        split; [cbn; rewrite El, <- !app_assoc; reflexivity |].
        split; [exact HR |]. split; [discriminate |].
        intros _. split; [eauto |]. left. eauto.
      * exists begun, false, cycles, (Some e).
        split; [cbn; rewrite El, <- !app_assoc; reflexivity |].
        split; [exact HR |]. split; [discriminate |].
        intros _. split; [eauto |]. right. eauto.
  - intros p Hne. unfold podURL, gateURL, statusURL. cbn [td_cur db_Tidb set_cur].
    rewrite bool_decide_eq_false_2 by exact Hne.
    rewrite append_assoc. reflexivity.
Qed.

End UpgradeProperties.

(** ** [Run]: startup and the watch *)

Section RunProperties.
Context `{G : Gateway}.
Import Watch.

Lemma bind_Ok {A B} (m : M A) (f : A -> M B) (w w' : World) (a : A) :
  m w = Ok w' a -> bind m f w = f a w'.
Proof. intros H. unfold bind. rewrite H. reflexivity. Qed.





(** *** The dispatcher and the scheduler *)

Lemma finish_total (plan : Plan) : total (finish plan).
Proof.
  destruct plan; cbn [finish]; [apply total_ret | apply total_emit |].
  apply total_bind; [apply total_call |].
  intros [e |]; [apply total_emit | apply total_ret].
Qed.

Lemma finish_grows (plan : Plan) : grows dispatcherAction (finish plan).
Proof.
  destruct plan; cbn [finish]; [apply grows_ret | apply grows_emit; right; eauto |].
  apply grows_bind; [apply grows_call; left; eauto |].
  intros [e |]; [apply grows_emit; right; eauto | apply grows_ret].
Qed.



Lemma advanced_refl (w : Watcher) (d : Dispatcher) : advanced w d w d.
Proof. split; [reflexivity | left; reflexivity]. Qed.

Lemma advanced_trans (w : Watcher) (d : Dispatcher) (w1 : Watcher) (d1 : Dispatcher)
    (w2 : Watcher) (d2 : Dispatcher) :
  advanced w d w1 d1 -> advanced w1 d1 w2 d2 -> advanced w d w2 d2.
Proof.
  intros [Hc1 Hr1] [Hc2 Hr2]. split; [congruence |].
  destruct Hr2 as [Hr2 | Hr2]; [rewrite Hr2; exact Hr1 | right; congruence].
Qed.

Lemma view_advanced (pre post : gmap string string) (w : Watcher) (d : Dispatcher)
    (w' : Watcher) (d' : Dispatcher) :
  view pre post w d -> advanced w d w' d' -> view pre post w' d'.
Proof.
  intros [Hc Hr] [Hc' Hr']. split; [congruence |].
  destruct Hr' as [Hr' | Hr']; [rewrite Hr'; exact Hr | right; congruence].
Qed.

Lemma dstep_spec (w : Watcher) (d : Dispatcher) (world : World) :
  exists world' w' d' l,
    dstep w d world = Ok world' (w', d')
    /\ log world' = log world ++ l /\ Forall dispatcherAction l
    /\ advanced w d w' d'.
Proof.
  destruct d as [| ev | plan]; cbn [dstep].
  - exists world, w, Idle, []. rewrite app_nil_r.
    repeat split; [constructor | left; reflexivity].
  - exists world, (handleMaps w ev).1, (Finishing (handleMaps w ev).2), [].
    rewrite app_nil_r. repeat split; [constructor | right; reflexivity].
  - destruct (finish_total plan world) as (world' & [] & Hf).
    destruct (finish_grows plan world) as (l & Hl & Fl). rewrite Hf in Hl. cbn in Hl.
    exists world', w, Idle, l. rewrite (bind_Ok _ _ _ _ _ Hf).
    repeat split; [exact Hl | exact Fl | left; reflexivity].
Qed.

Lemma yield1_spec (w : Watcher) (d : Dispatcher) (world : World) :
  exists world' w' d' l,
    yield1 w d world = Ok world' (w', d')
    /\ log world' = log world ++ l /\ Forall dispatcherAction l
    /\ advanced w d w' d'.
Proof.
  assert (Hidle : exists world' w' d' l,
             ret (w, d) world = Ok world' (w', d')
             /\ log world' = log world ++ l /\ Forall dispatcherAction l
             /\ advanced w d w' d').
  { exists world, w, d, []. rewrite app_nil_r.
    repeat split; [constructor | left; reflexivity]. }
  assert (Hrun : exists world' w' d' l,
             bind scheduled (fun b : bool => if b then dstep w d else ret (w, d)) world
             = Ok world' (w', d')
             /\ log world' = log world ++ l /\ Forall dispatcherAction l
             /\ advanced w d w' d').
  { unfold bind, scheduled. destruct (dispatcherRuns (plat world)) as [k [|]].
    - destruct (dstep_spec w d (mkWorld k (log world))) as (world' & w' & d' & l & H).
      exists world', w', d', l. exact H.
    - exists (mkWorld k (log world)), w, d, []. cbn [log]. rewrite app_nil_r.
      repeat split; [constructor | left; reflexivity]. }
  destruct d; [exact Hidle | exact Hrun | exact Hrun].
Qed.

Lemma yield_spec (w : Watcher) (d : Dispatcher) (world : World) :
  exists world' w' d' l,
    yield w d world = Ok world' (w', d')
    /\ log world' = log world ++ l /\ Forall dispatcherAction l
    /\ advanced w d w' d'.
Proof.
  unfold yield.
  destruct (yield1_spec w d world) as (world1 & w1 & d1 & l1 & H1 & E1 & F1 & A1).
  destruct (yield1_spec w1 d1 world1) as (world2 & w2 & d2 & l2 & H2 & E2 & F2 & A2).
  exists world2, w2, d2, (l1 ++ l2). rewrite (bind_Ok _ _ _ _ _ H1). cbn [fst snd].
  split; [exact H2 |]. split; [rewrite E2, E1, app_assoc; reflexivity |].
  split; [apply Forall_app; split; assumption |].
  exact (advanced_trans _ _ _ _ _ _ A1 A2).
Qed.

Lemma yield_Idle (w : Watcher) (world : World) : yield w Idle world = Ok world (w, Idle).
Proof. reflexivity. Qed.

Lemma settle_spec (w : Watcher) (d : Dispatcher) (world : World) :
  exists world' w' l,
    settle w d world = Ok world' w'
    /\ log world' = log world ++ l /\ Forall dispatcherAction l.
Proof.
  unfold settle.
  destruct (dstep_spec w d world) as (world1 & w1 & d1 & l1 & H1 & E1 & F1 & _).
  destruct (dstep_spec w1 d1 world1) as (world2 & w2 & d2 & l2 & H2 & E2 & F2 & _).
  exists world2, w2, (l1 ++ l2). rewrite (bind_Ok _ _ _ _ _ H1). cbn [fst snd].
  rewrite (bind_Ok _ _ _ _ _ H2). cbn [fst snd].
  split; [reflexivity |]. split; [rewrite E2, E1, app_assoc; reflexivity |].
  apply Forall_app; split; assumption.
Qed.


Lemma leave_Idle (w : Watcher) (e : RoundEnd) (world : World) :
  leave w Idle e world = Ok world (w, Idle, e).
Proof. reflexivity. Qed.

(** Any list of actions is a log that grows freely. *)
Lemma grows_of_spec {A} (m : M A) :
  (forall world, exists l, log (world_of (m world)) = log world ++ l) ->
  grows (fun _ => True) m.
Proof.
  intros H world. destruct (H world) as [l Hl]. exists l. split; [exact Hl |].
  apply Forall_forall. intros; exact I.
Qed.

Lemma yield_grows (w : Watcher) (d : Dispatcher) : grows (fun _ => True) (yield w d).
Proof.
  apply grows_of_spec. intros world.
  destruct (yield_spec w d world) as (world1 & w1 & d1 & l1 & H1 & E1 & _).
  exists l1. rewrite H1. exact E1.
Qed.

Lemma settle_grows (w : Watcher) (d : Dispatcher) : grows (fun _ => True) (settle w d).
Proof.
  apply grows_of_spec. intros world.
  destruct (settle_spec w d world) as (world1 & w1 & l1 & H1 & E1 & _).
  exists l1. rewrite H1. exact E1.
Qed.

Lemma leave_grows (w : Watcher) (d : Dispatcher) (e : RoundEnd) :
  grows (fun _ => True) (leave w d e).
Proof.
  unfold leave. apply grows_bind; [apply yield_grows | intros r; apply grows_ret].
Qed.

(** *** The stability check while the dispatcher is at work *)

Lemma unstableDuring_same (m : gmap string string) (n : nat) (cur : list Db) :
  unstableDuring m m n cur
  = if bool_decide (size m = length cur) then anyChanged m cur else true.
Proof.
  assert (H : forall cur n, anyChangedFrom m m n cur = anyChanged m cur).
  { clear. induction cur as [| cd rest IH]; intros n; cbn [anyChangedFrom anyChanged];
      [reflexivity |].
    replace (match n with O => m | S _ => m end) with m by (destruct n; reflexivity).
    destruct (m !! _); [| reflexivity]. case_bool_decide; [apply IH | reflexivity]. }
  unfold unstableDuring.
  replace (match n with O => m | S _ => m end) with m by (destruct n; reflexivity).
  rewrite H. reflexivity.
Qed.

(** Once the cache shows what the event led to, every later read sees that. *)
Lemma anyChangedRacing_post (pre post : gmap string string) (cur : list Db) :
  forall (w : Watcher) (d : Dispatcher) (world : World),
    cacheAfter w d = post -> dbRVs w = post ->
    exists world' w' d' l,
      anyChangedRacing w d cur world = Ok world' (w', d', anyChangedFrom pre post 0 cur)
      /\ log world' = log world ++ l /\ Forall dispatcherAction l
      /\ advanced w d w' d'.
Proof.
  induction cur as [| cd rest IH]; intros w d world Hc Hr; cbn [anyChangedRacing anyChangedFrom].
  - exists world, w, d, []. rewrite app_nil_r. unfold ret.
    repeat split; [constructor | left; reflexivity].
  - destruct (yield_spec w d world) as (world1 & w1 & d1 & l1 & H1 & E1 & F1 & A1).
    rewrite (bind_Ok _ _ _ _ _ H1). cbn [fst snd].
    assert (Hr1 : dbRVs w1 = post).
    { destruct A1 as [_ [Hx | Hx]]; congruence. }
    assert (Hc1 : cacheAfter w1 d1 = post).
    { destruct A1 as [Hx _]; congruence. }
    rewrite Hr1. cbn [Nat.pred].
    destruct (post !! Name (db_Metadata cd)) as [rv |].
    + case_bool_decide.
      * destruct (IH w1 d1 world1 Hc1 Hr1) as (world2 & w2 & d2 & l2 & H2 & E2 & F2 & A2).
        exists world2, w2, d2, (l1 ++ l2).
        split; [exact H2 |]. split; [rewrite E2, E1, app_assoc; reflexivity |].
        split; [apply Forall_app; split; assumption |].
        exact (advanced_trans _ _ _ _ _ _ A1 A2).
      * exists world1, w1, d1, l1. unfold ret. auto.
    + exists world1, w1, d1, l1. unfold ret. auto.
Qed.

(** The lookups of the check see the cache before the event up to some read,
    and the cache after it from then on. *)
Lemma anyChangedRacing_spec (pre post : gmap string string) (cur : list Db) :
  forall (w : Watcher) (d : Dispatcher) (world : World),
    view pre post w d ->
    exists n world' w' d' l,
      anyChangedRacing w d cur world = Ok world' (w', d', anyChangedFrom pre post n cur)
      /\ log world' = log world ++ l /\ Forall dispatcherAction l
      /\ advanced w d w' d'.
Proof.
  induction cur as [| cd rest IH]; intros w d world Hv.
  - exists 0%nat, world, w, d, []. cbn [anyChangedRacing anyChangedFrom]. rewrite app_nil_r.
    unfold ret. repeat split; [constructor | left; reflexivity].
  - cbn [anyChangedRacing].
    destruct (yield_spec w d world) as (world1 & w1 & d1 & l1 & H1 & E1 & F1 & A1).
    rewrite (bind_Ok _ _ _ _ _ H1). cbn [fst snd].
    destruct (view_advanced pre post w d w1 d1 Hv A1) as [Hc1 [Hr1 | Hr1]].
    + (* this read still sees the cache before the event *)
      rewrite Hr1.
      destruct (pre !! Name (db_Metadata cd)) as [rv |] eqn:El.
      * case_bool_decide as Hrv.
        -- destruct (IH w1 d1 world1 (conj Hc1 (or_introl Hr1)))
             as (n & world2 & w2 & d2 & l2 & H2 & E2 & F2 & A2).
           exists (S n), world2, w2, d2, (l1 ++ l2).
           cbn [anyChangedFrom Nat.pred]. rewrite El, bool_decide_eq_true_2 by exact Hrv.
           split; [exact H2 |]. split; [rewrite E2, E1, app_assoc; reflexivity |].
           split; [apply Forall_app; split; assumption |].
           exact (advanced_trans _ _ _ _ _ _ A1 A2).
        -- exists 1%nat, world1, w1, d1, l1.
           cbn [anyChangedFrom]. rewrite El, bool_decide_eq_false_2 by exact Hrv.
           unfold ret. auto.
      * exists 1%nat, world1, w1, d1, l1. cbn [anyChangedFrom]. rewrite El. unfold ret. auto.
    + (* the cache has been written *)
      rewrite Hr1.
      destruct (post !! Name (db_Metadata cd)) as [rv |] eqn:El.
      * case_bool_decide as Hrv.
        -- destruct (anyChangedRacing_post pre post rest w1 d1 world1 Hc1 Hr1)
             as (world2 & w2 & d2 & l2 & H2 & E2 & F2 & A2).
           exists 0%nat, world2, w2, d2, (l1 ++ l2).
           cbn [anyChangedFrom Nat.pred]. rewrite El, bool_decide_eq_true_2 by exact Hrv.
           split; [exact H2 |]. split; [rewrite E2, E1, app_assoc; reflexivity |].
           split; [apply Forall_app; split; assumption |].
           exact (advanced_trans _ _ _ _ _ _ A1 A2).
        -- exists 0%nat, world1, w1, d1, l1.
           cbn [anyChangedFrom]. rewrite El, bool_decide_eq_false_2 by exact Hrv.
           unfold ret. auto.
      * exists 0%nat, world1, w1, d1, l1. cbn [anyChangedFrom]. rewrite El. unfold ret. auto.
Qed.

(** The check of the watch goroutine never panics, and what it answers is
    the check on a cache that changes from [pre] to [post] at one of its
    reads. *)
Lemma racing_check (pre post : gmap string string) (cur : list Db)
    (w : Watcher) (d : Dispatcher) (world : World) :
  view pre post w d ->
  exists n world' w' d' l,
    isDbsCacheUnstableRacing w d cur world = Ok world' (w', d', unstableDuring pre post n cur)
    /\ log world' = log world ++ l /\ Forall dispatcherAction l
    /\ advanced w d w' d'.
Proof.
  intros Hv. unfold isDbsCacheUnstableRacing.
  destruct (yield_spec w d world) as (world1 & w1 & d1 & l1 & H1 & E1 & F1 & A1).
  rewrite (bind_Ok _ _ _ _ _ H1). cbn [fst snd].
  destruct (view_advanced pre post w d w1 d1 Hv A1) as [Hc1 [Hr1 | Hr1]].
  - rewrite Hr1. case_bool_decide as Hsz.
    + destruct (anyChangedRacing_spec pre post cur w1 d1 world1 (conj Hc1 (or_introl Hr1)))
        as (n & world2 & w2 & d2 & l2 & H2 & E2 & F2 & A2).
      exists (S n), world2, w2, d2, (l1 ++ l2).
      unfold unstableDuring. cbn [Nat.pred]. rewrite bool_decide_eq_true_2 by exact Hsz.
      split; [exact H2 |]. split; [rewrite E2, E1, app_assoc; reflexivity |].
      split; [apply Forall_app; split; assumption |].
      exact (advanced_trans _ _ _ _ _ _ A1 A2).
    + exists 1%nat, world1, w1, d1, l1.
      unfold unstableDuring. rewrite bool_decide_eq_false_2 by exact Hsz. unfold ret. auto.
  - rewrite Hr1. case_bool_decide as Hsz.
    + destruct (anyChangedRacing_post pre post cur w1 d1 world1 Hc1 Hr1)
        as (world2 & w2 & d2 & l2 & H2 & E2 & F2 & A2).
      exists 0%nat, world2, w2, d2, (l1 ++ l2).
      unfold unstableDuring. cbn [Nat.pred]. rewrite bool_decide_eq_true_2 by exact Hsz.
      split; [exact H2 |]. split; [rewrite E2, E1, app_assoc; reflexivity |].
      split; [apply Forall_app; split; assumption |].
      exact (advanced_trans _ _ _ _ _ _ A1 A2).
    + exists 0%nat, world1, w1, d1, l1.
      unfold unstableDuring. rewrite bool_decide_eq_false_2 by exact Hsz. unfold ret. auto.
Qed.


Lemma racing_check_grows (w : Watcher) (d : Dispatcher) (cur : list Db) :
  grows (fun _ => True) (isDbsCacheUnstableRacing w d cur).
Proof.
  apply grows_of_spec. intros world.
  destruct (racing_check (dbRVs w) (cacheAfter w d) cur w d world
              (conj eq_refl (or_introl eq_refl)))
    as (n & world1 & w1 & d1 & l1 & H1 & E1 & _).
  exists l1. rewrite H1. exact E1.
Qed.

(** *** The stream *)



Lemma watchStream_grows (items : list Parsed) (closes : bool) :
  forall (w : Watcher) (d : Dispatcher) (ver : string),
    grows (fun _ => True) (watchStream w d ver items closes).
Proof.
  induction items as [| item items IH]; intros w d ver; cbn [watchStream].
  - destruct closes; [apply leave_grows |].
    apply grows_bind; [apply settle_grows | intros w'; apply grows_ret].
  - assert (Hsend : forall w d ev,
               grows (fun _ => True)
                 (bind (settle w d)
                    (fun w' => watchStream w' (Received ev)
                                 (ResourceVersion (db_Metadata (ev_Object ev))) items closes))).
    { intros w0 d0 ev. apply grows_bind; [apply settle_grows | intros w'; apply IH]. }
    destruct item as [ev | code msg ev]; [apply Hsend |].
    apply grows_bind; [apply yield_grows | intros s].
    apply grows_bind; [apply grows_emit; exact I | intros _].
    case_bool_decide.
    + apply grows_bind; [apply yield_grows | intros s'].
      apply grows_bind; [apply grows_call; exact I |].
      intros [e | [dbList |]]; [apply leave_grows | | apply grows_panic].
      apply grows_bind; [apply racing_check_grows | intros c].
      destruct (negb _); apply leave_grows.
    + destruct ev as [ev |]; [apply Hsend | apply grows_panic].
Qed.

(** A round of the watch opens the stream at its watch version; before that
    only the dispatcher acts. *)
Lemma watchRound_log (w : Watcher) (d : Dispatcher) (ver : string) (world : World) :
  exists l0 l,
    log (world_of (watchRound w d ver world)) = log world ++ l0 ++ AWatchTidbs ver :: l
    /\ Forall dispatcherAction l0.
Proof.
  unfold watchRound.
  destruct (yield_spec w d world) as (world1 & w1 & d1 & l1 & H1 & E1 & F1 & _).
  rewrite (bind_Ok _ _ _ _ _ H1). cbn [fst snd].
  unfold bind. rewrite call_eq.
  destruct (WatchTidbs ver (plat world1)) as [k [e | resp]]; cbn [fst snd].
  - destruct (leave_grows w1 d1 (Exit e) (mkWorld k (log world1 ++ [AWatchTidbs ver])))
      as [l [Hl _]].
    exists l1, l. rewrite Hl. cbn [log]. rewrite E1, <- !app_assoc. split; [reflexivity | exact F1].
  - destruct (watchStream_grows (stream_items resp) (stream_closes resp) w1 d1 ver
                (mkWorld k (log world1 ++ [AWatchTidbs ver]))) as [l [Hl _]].
    exists l1, l. rewrite Hl. cbn [log]. rewrite E1, <- !app_assoc. split; [reflexivity | exact F1].
Qed.


Lemma watchRound_log_Idle (w : Watcher) (ver : string) (world : World) :
  exists l, log (world_of (watchRound w Idle ver world)) = log world ++ AWatchTidbs ver :: l.
Proof.
  destruct (watchRound_log w Idle ver world) as (l0 & l & Hl & _).
  revert Hl. unfold watchRound. rewrite (bind_Ok _ _ _ _ _ (yield_Idle w world)). cbn [fst snd].
  unfold bind. rewrite call_eq.
  destruct (WatchTidbs ver (plat world)) as [k [e | resp]]; cbn [fst snd]; intros _.
  - exists []. reflexivity.
  - destruct (watchStream_grows (stream_items resp) (stream_closes resp) w Idle ver
                (mkWorld k (log world ++ [AWatchTidbs ver]))) as [l' [Hl' _]].
    exists l'. rewrite Hl'. cbn [log]. rewrite <- app_assoc. reflexivity.
Qed.









Lemma initResource_grows (w : Watcher) : grows initAction (initResource w).
Proof.
  unfold initResource, findAllDbs.
  apply grows_bind; [apply grows_call; left; reflexivity |].
  intros [e |]; [apply grows_ret |].
  apply grows_bind.
  - apply grows_bind; [apply grows_call; right; left; reflexivity |].
    intros [e | [dbList |]]; apply grows_ret.
  - intros [w1 [e | ver]]; cbn [snd fst]; [apply grows_ret |].
    destruct (cfg_PVProvisioner w); try apply grows_ret.
    apply grows_bind; [apply grows_call; right; right; reflexivity |].
    intros [e | vol]; apply grows_ret.
Qed.

Lemma initResource_total (w : Watcher) (world : World) :
  exists world' r, initResource w world = Ok world' r.
Proof.
  revert world. change (total (initResource w)). unfold initResource, findAllDbs.
  apply total_bind; [apply total_call |].
  intros [e |]; [apply total_ret |].
  apply total_bind.
  - apply total_bind; [apply total_call |].
    intros [e | [dbList |]]; apply total_ret.
  - intros [w1 [e | ver]]; cbn [snd fst]; [apply total_ret |].
    destruct (cfg_PVProvisioner w); try apply total_ret.
    apply total_bind; [apply total_call |].
    intros [e | vol]; apply total_ret.
Qed.

Lemma initAction_no_sleep (l : list Action) (d : Z) :
  Forall initAction l -> countActs (isSleep d) l = 0%nat.
Proof.
  induction 1 as [| a l Ha _ IH]; [reflexivity |].
  unfold countActs in *. cbn [List.filter].
  destruct Ha as [-> | [-> | ->]]; cbn; exact IH.
Qed.

(** The startup loop never panics; what it logs is startup, and when it is
    still failing after [fuel] attempts it has slept [fuel] times. *)
Lemma initLoop_log (fuel : nat) :
  forall (w : Watcher) (world : World),
  exists world' r l,
    initLoop fuel w world = Ok world' r
    /\ log world' = log world ++ l /\ Forall startupAction l
    /\ (r = None -> countActs (isSleep initRetryWaitTime) l = fuel).
Proof.
  induction fuel as [| fuel IH]; intros w world; cbn [initLoop].
  - exists world, None, []. rewrite app_nil_r. unfold ret. auto.
  - destruct (initResource_total w world) as (world1 & [w1 r] & Hi).
    destruct (initResource_grows w world) as [l1 [E1 F1]]. rewrite Hi in E1. cbn in E1.
    rewrite (bind_Ok _ _ _ _ _ Hi). cbn [snd fst].
    destruct r as [err | ver].
    + unfold bind, Sleep.
      destruct (IH w1 (mkWorld (sleep initRetryWaitTime (plat world1))
                         (log world1 ++ [ASleep initRetryWaitTime])))
        as (world2 & r2 & l2 & Hrun & E2 & F2 & Hc).
      exists world2, r2, (l1 ++ [ASleep initRetryWaitTime] ++ l2).
      split; [exact Hrun |]. cbn [log] in E2.
      split; [rewrite E2, E1, <- !app_assoc; reflexivity |].
      split.
      * apply Forall_app; split; [eapply Forall_impl; [exact F1 | intros a Ha; left; exact Ha] |].
        apply Forall_app; split; [| exact F2].
        constructor; [right; reflexivity | constructor].
      * intros Hr. rewrite !countActs_app, (initAction_no_sleep _ _ F1), (Hc Hr).
        unfold countActs. cbn. rewrite Z.eqb_refl. reflexivity.
    + exists world1, (Some (w1, ver)), l1. unfold ret.
      split; [reflexivity |]. split; [exact E1 |].
      split; [eapply Forall_impl; [exact F1 | intros a Ha; left; exact Ha] | discriminate].
Qed.

Lemma Run_initializing (fuel : nat) (w : Watcher) (world world1 : World) :
  initLoop fuel w world = Ok world1 None -> Run fuel w world = Ok world1 (w, Initializing).
Proof. intros H. unfold Run. rewrite (bind_Ok _ _ _ _ _ H). reflexivity. Qed.

(** [Run] once the startup loop has ended: the recycle pass, then the first
    round of the watch. *)
Lemma Run_started (fuel : nat) (w w1 : Watcher) (ver : string) (world world1 : World) :
  initLoop fuel w world = Ok world1 (Some (w1, ver)) ->
  Run fuel w world
  = match recycle w1 world1 with
    | Panic world2 => Panic world2
    | Ok world2 (Some err) => Ok world2 (w1, Returns err)
    | Ok world2 None =>
        match watchRound w1 Idle ver (logged world2 [AStartSweeper]) with
        | Panic world3 => Panic world3
        | Ok world3 (wk, _, Exit err) => Ok world3 (wk, Returns err)
        | Ok world3 (wk, _, Again err _) => Ok world3 (wk, Returns err)
        | Ok world3 (wk, _, Blocked) => Ok world3 (wk, NeverReturns)
        end
    end.
Proof.
  intros H. unfold Run. rewrite (bind_Ok _ _ _ _ _ H). unfold bind at 1.
  destruct (recycle w1 world1) as [world2 [err |] | world2]; [reflexivity | | reflexivity].
  unfold bind at 1, emit. fold (logged world2 [AStartSweeper]). unfold bind.
  destruct (watchRound w1 Idle ver _) as [world3 [[wk d] [e | e v |]] | world3]; reflexivity.
Qed.

Lemma recycle_log (w : Watcher) (world world2 : World) (e : option error) :
  recycle w world = Ok world2 e ->
  exists pv, pvProvisioner w = Some pv /\ log world2 = log world ++ [AClean pv (allStores w)].
Proof.
  unfold recycle. destruct (pvProvisioner w) as [pv |]; [| discriminate].
  rewrite call_eq. intros [= <- <-]. eauto.
Qed.

Lemma dispatch1_grows (w : Watcher) (ev : Event) : grows (fun _ => True) (dispatch1 w ev).
Proof.
  unfold dispatch1, handleTidbEvent.
  apply grows_bind.
  - destruct (ev_Type ev); try apply grows_ret;
      (destruct (dbs w !! _); [| apply grows_ret]);
      (apply grows_bind; [apply grows_call; exact I | intros e; apply grows_ret]).
  - intros [w' [e |]]; cbn [snd fst]; [| apply grows_ret].
    apply grows_bind; [apply grows_emit; exact I | intros _; apply grows_ret].
Qed.

(** C6, as the code has it. The steps of [initResource] (registering the
    resource type, listing and seeding, selecting the provisioner) are retried
    without a cap, 30 seconds after each failure: as long as they fail [Run]
    is still initializing, has slept once per failed attempt and has done
    nothing but startup. The recycle pass runs once, after they succeeded, and
    is not retried: when it fails [Run] returns its error, and only when it
    succeeds are the sweeper and the watch started. *)
Theorem C6_startup_retries_but_recycle_returns (fuel : nat) (w : Watcher) (world : World) :
  match initResource w world with
  | Panic _ => False
  | Ok world1 (w1, inl _) =>
      initLoop (S fuel) w world = initLoop fuel w1 (slept (30 * Second) world1)
  | Ok world1 (w1, inr ver) => initLoop (S fuel) w world = Ok world1 (Some (w1, ver))
  end
  /\ match initLoop fuel w world with
     | Panic _ => False
     | Ok world1 None =>
         Run fuel w world = Ok world1 (w, Initializing)
         /\ exists l, log world1 = log world ++ l /\ Forall startupAction l
                      /\ countActs (isSleep (30 * Second)) l = fuel
     | Ok world1 (Some (w1, ver)) =>
         (exists l, log world1 = log world ++ l /\ Forall startupAction l)
         /\ match recycle w1 world1 with
            | Panic world2 => Run fuel w world = Panic world2
            | Ok world2 (Some err) =>
                Run fuel w world = Ok world2 (w1, Returns err)
                /\ exists pv, log world2 = log world1 ++ [AClean pv (allStores w1)]
            | Ok world2 None =>
                exists pv l,
                  log (world_of (Run fuel w world))
                  = log world1 ++ [AClean pv (allStores w1); AStartSweeper; AWatchTidbs ver] ++ l
            end
     end.
Proof.
  split.
  - destruct (initResource_total w world) as (world1 & [w1 r] & Hi). rewrite Hi.
    cbn [initLoop]. rewrite (bind_Ok _ _ _ _ _ Hi). cbn [snd fst].
    destruct r as [err | ver]; reflexivity.
  - destruct (initLoop_log fuel w world) as (world1 & r & l & Hrun & El & Fl & Hc).
    rewrite Hrun. destruct r as [[w1 ver] |].
    + split; [eauto |].
      rewrite (Run_started fuel w w1 ver world world1 Hrun).
      destruct (recycle w1 world1) as [world2 [err |] | world2] eqn:Er; [| | reflexivity].
      * split; [reflexivity |].
        destruct (recycle_log _ _ _ _ Er) as (pv & _ & Hl). eauto.
      * destruct (recycle_log _ _ _ _ Er) as (pv & _ & Hl).
        destruct (watchRound_log_Idle w1 ver (logged world2 [AStartSweeper])) as [l' Hl'].
        exists pv, l'.
        assert (Hw : log (world_of
                      match watchRound w1 Idle ver (logged world2 [AStartSweeper]) with
                      | Ok world3 (wk, _, Exit err) => Ok world3 (wk, Returns err)
                      | Ok world3 (wk, _, Again err _) => Ok world3 (wk, Returns err)
                      | Ok world3 (wk, _, Blocked) => Ok world3 (wk, NeverReturns)
                      | Panic world3 => Panic world3
                      end)
                    = log (world_of (watchRound w1 Idle ver (logged world2 [AStartSweeper])))).
        { destruct (watchRound w1 Idle ver _) as [world3 [[wk d] [e | e v |]] | world3];
            reflexivity. }
        rewrite Hw, Hl'. cbn [logged log]. rewrite Hl, <- !app_assoc. reflexivity.
    + split; [apply Run_initializing; exact Hrun |].
      exists l. split; [exact El |]. split; [exact Fl | apply Hc; reflexivity].
Qed.


End RunProperties.

(** ** Scenarios on the scripted platform *)

Section Scenarios.
Import Toy Watch Operator K8sutil.


(** The platform closes the stream: the goroutine sends the error "test" and
    [Run] returns it. *)
Example run_returns_when_stream_closes :
  snd <$> value_of (Run (G:=toy) 1 watcher0 (start kClosed)) = Some (Returns "test").
Proof. vm_compute. reflexivity. Qed.

(** The stream yields 410 and the relist is stable: the same. *)
Example run_returns_when_relist_is_stable :
  snd <$> value_of (Run (G:=toy) 1 watcher0 (start kGoneStable)) = Some (Returns "test").
Proof. vm_compute. reflexivity. Qed.

(** "c1" is modified to "101", then the stream yields 410 and the relist
    shows "c1" at "101". When the dispatcher has handled the event before the
    check reads the cache, the check passes and [Run] returns "test"; when it
    has not, the check reads "100" and [Run] returns [ErrVersionOutdated]. *)
Example run_after_event_and_gone_dispatcher_first :
  snd <$> value_of (Run (G:=toy) 1 watcher0 (start kModifiedGone)) = Some (Returns "test").
Proof. vm_compute. reflexivity. Qed.

Example run_after_event_and_gone_check_first :
  snd <$> value_of (Run (G:=toyLate) 1 watcher0 (@mkWorld toyLate kModifiedGone []))
  = Some (Returns ErrVersionOutdated).
Proof. vm_compute. reflexivity. Qed.


(** C6 does not hold as stated. The cleanup of the provisioner fails at
    startup: [Run] returns its error after one recycle pass, without a retry
    and without a sleep, although there is fuel for three attempts. *)
Lemma C6_recycle_failure_returns :
  snd <$> value_of (Run (G:=toy) 3 watcher0 (start kCleanFails)) = Some (Returns "clean failed")
  /\ log (world_of (Run (G:=toy) 3 watcher0 (start kCleanFails)))
     = [ACreateTPR; AGetAllDbs; AClean NilPVProvisioner [mkStore "tikv-c1-001" false]].
Proof. split; vm_compute; reflexivity. Qed.

(** Registering the resource type fails twice: two sleeps of 30 seconds, then
    the startup goes on. *)
Example run_retries_startup :
  log (world_of (Run (G:=toy) 3 watcher0 (start kRetry)))
  = [ACreateTPR; ASleep (30 * Second); ACreateTPR; ASleep (30 * Second);
     ACreateTPR; AGetAllDbs; AClean NilPVProvisioner [mkStore "tikv-c1-001" false];
     AStartSweeper; AWatchTidbs "7"].
Proof. vm_compute. reflexivity. Qed.

Lemma C2_unknown_cluster_is_unsafe_state_witness :
  handleTidbEvent (G:=toy) watcher0 (mkEvent Modified (c1 "100")) (start k0)
  = Ok (start k0)
       (watcher0,
        Some "unsafe state. tidb was never created but we received event (MODIFIED)").
Proof.
  apply (proj1 (C2_unknown_cluster_is_unsafe_state (G:=toy) watcher0
                  (mkEvent Modified (c1 "100")) (start k0) (or_introl eq_refl) eq_refl)).
Defined.

(** A Deleted event for the tracked cluster "c1": the cleanup is called with
    no cluster at all. *)
Lemma C8_deleted_calls_gc_with_nil_cluster_witness :
  log (world_of (handleTidbEvent (G:=toy) watcher1 (mkEvent Deleted (c1 "100")) (start k0)))
  = [AGc None None (Some NilPVProvisioner)].
Proof.
  rewrite (proj1 (C8_deleted_calls_gc_with_nil_cluster (G:=toy) watcher1
                    (mkEvent Deleted (c1 "100")) (start k0) eq_refl
                    (ex_intro _ (c1 "100") eq_refl))).
  reflexivity.
Defined.

Lemma C5_stability_check_witness :
  isDbsCacheUnstable watcher1 [c1 "100"] = false.
Proof.
  apply (proj2 (proj1 (C5_stability_check watcher1 [c1 "100"] (NoDup_singleton "c1")))).
  split; [reflexivity |].
  intros cd Hin. apply list_elem_of_singleton in Hin. subst cd. reflexivity.
Defined.

Lemma C9_upgrade_before_started_witness :
  upgrade (G:=toy) c0 (start k0)
  = Ok (logged (start k0)
          [ATrace "c0" "tidb/tidb" "upgrate" (Some "tidb cluster is unavailable")
                  "Upgrate tidb to version: v2"])
       (c0, Some "tidb cluster is unavailable").
Proof.
  apply (C9_upgrade_before_started (G:=toy) c0 (start k0)). vm_compute. reflexivity.
Defined.

(** From 3 replicas to 7 with a maximum of 10: accepted, and the count is 7
    whatever the health gate says afterwards. *)
Lemma C3_scale_validation_witness :
  exists w' db' e, reconcileTidbs (G:=toy) (c1 "100") 7 (start k0) = Ok w' (db', e)
                   /\ td_Replicas db' = 7.
Proof.
  destruct (C3_scale_validation (G:=toy) (c1 "100") 7 (start k0)) as [_ H].
  - change (- 2 ^ 60 <= 3 < 2 ^ 60). lia.
  - destruct H as [_ H]; [lia | change (7 <> 3); lia |].
    hnf in H. destruct H as [_ H]. hnf in H. destruct H as [H1 H2].
    eexists _, _, _. split; [exact H1 | exact H2].
Defined.

(** From 3 replicas to 10: more than three times the current count. *)
Example scale_out_too_far :
  snd <$> value_of (reconcileTidbs (G:=toy) (c1 "100") 10 (start k0))
  = Some (Some "each scale out can not more then 2 times").
Proof. vm_compute. reflexivity. Qed.

(** Two of the three pods of "c1" run the old image. *)
Lemma C4_upgrade_rolls_pod_by_pod_witness :
  exists begun ok cycles err,
    log (world_of (upgrade (G:=toy) (c1 "100") (start k0)))
    = [AUpgradeRC "tidb-c1" "registry.local/tidb:v2" "v2"; AGetPods "c1" "tidb"]
      ++ cycles ++ [upgradeTrace (c1 "100") err]
    /\ Rolling (c1 "100") begun ok cycles
    /\ (ok = true -> begun = ["tidb-c1-a"; "tidb-c1-c"]).
Proof.
  destruct (proj1 (C4_upgrade_rolls_pod_by_pod (G:=toy) (c1 "100") (start k0) k0 k0 pods3
                     (Z.le_refl 6) eq_refl eq_refl))
    as (begun & ok & cycles & err & Hl & HR & Hok & _).
  exists begun, ok, cycles, err.
  split; [exact Hl |]. split; [exact HR |].
  intros H. exact (proj1 (Hok H)).
Defined.

Example upgrade_log :
  log (world_of (upgrade (G:=toy) (c1 "100") (start k0)))
  = [AUpgradeRC "tidb-c1" "registry.local/tidb:v2" "v2"; AGetPods "c1" "tidb";
     ADeletePods "tidb-c1-a"; ASleep (8 * Second);
     AGetPods "c1" "tidb"; AHttpGet "http://tidb-c1-a:10080/status" (2 * Second);
     AListPodNames "c1" "tidb";
     ADeletePods "tidb-c1-c"; ASleep (8 * Second);
     AGetPods "c1" "tidb"; AHttpGet "http://tidb-c1-c:10080/status" (2 * Second);
     AListPodNames "c1" "tidb";
     ATrace "c1" "tidb/tidb" "upgrate" None "Upgrate tidb to version: v2"].
Proof. vm_compute. reflexivity. Qed.


(** A job that never becomes active: 5 reads, one second apart, then the
    error of the exhausted retry. *)
Example job_wait_times_out :
  let k := with_clean None k0 in
  let r := CreateAndWaitJob (G:=toy) (mkJob "job1" 0) (5 * Second)
             (start (mkToyK [] [] None None (inl "") 10 (inr []) (inr []) None None None
                            (mkJob "job1" 0, None) None)) in
  snd <$> value_of r = Some (Some "still failing after 5 retries")
  /\ log (world_of r)
     = [AJobCreate (mkJob "job1" 0);
        AJobGet "job1"; ASleep Second; AJobGet "job1"; ASleep Second; AJobGet "job1";
        ASleep Second; AJobGet "job1"; ASleep Second; AJobGet "job1"].
Proof. split; vm_compute; reflexivity. Qed.

(** The job was deleted: its pods are left alone. *)
Example delete_job_keeps_pods :
  log (world_of (DeleteJob (G:=toy) "job1" (start k0))) = [AJobDelete "job1"].
Proof. vm_compute. reflexivity. Qed.

End Scenarios.

(** * Further properties of the code *)

(** ** The cluster state store *)

Section StoreProperties.
Context `{G : Gateway}.
Import Watch.

(** X1. An Added event never fails and calls nothing; afterwards the cluster
    and its resource version are found under the cluster's name, and the
    entries of the other names are as before (an Added for a name already
    tracked overwrites it). *)
Theorem handle_added_inserts (w : Watcher) (ev : Event) (world : World) :
  ev_Type ev = Added ->
  let db := AfterPropertiesSet (ev_Object ev) in
  exists w',
    handleTidbEvent w ev world = Ok world (w', None)
    /\ dbs w' !! GetName db = Some db
    /\ dbRVs w' !! GetName db = Some (ResourceVersion (db_Metadata db))
    /\ (forall name, name <> GetName db ->
          dbs w' !! name = dbs w !! name /\ dbRVs w' !! name = dbRVs w !! name)
    /\ pvProvisioner w' = pvProvisioner w.
Proof.
  intros Ht db. unfold handleTidbEvent. rewrite Ht. fold db.
  eexists. split; [reflexivity |]. cbn [dbs dbRVs set_maps pvProvisioner].
  split; [apply lookup_insert_eq |]. split; [apply lookup_insert_eq |].
  split; [| reflexivity].
  intros name Hne. split; apply lookup_insert_ne; congruence.
Qed.

(** X2. A Modified event for a tracked name replaces the cluster and its
    version and then calls the garbage trigger with the new cluster as both
    the old and the new one (the old one is looked up after it was
    overwritten). When the trigger fails its error is returned and the maps
    stay updated. *)
Theorem handle_modified_replaces (w : Watcher) (ev : Event) (world : World) :
  ev_Type ev = Modified ->
  let db := AfterPropertiesSet (ev_Object ev) in
  is_Some (dbs w !! GetName db) ->
  let answer := gc (Some db) (Some db) (pvProvisioner w) (plat world) in
  exists w',
    handleTidbEvent w ev world
    = Ok (mkWorld answer.1 (log world ++ [AGc (Some db) (Some db) (pvProvisioner w)]))
         (w', answer.2)
    /\ dbs w' = <[GetName db := db]> (dbs w)
    /\ dbRVs w' = <[GetName db := ResourceVersion (db_Metadata db)]> (dbRVs w)
    /\ dom (dbs w') = dom (dbs w).
Proof.
  intros Ht db [old Hold] answer. unfold handleTidbEvent. rewrite Ht. fold db. rewrite Hold.
  cbn [dbs set_maps pvProvisioner]. rewrite lookup_insert_eq.
  eexists. split.
  - unfold bind. rewrite call_eq. reflexivity.
  - cbn [dbs dbRVs set_maps]. split; [reflexivity |]. split; [reflexivity |].
    rewrite dom_insert_L. apply subseteq_union_1_L, singleton_subseteq_l.
    eapply elem_of_dom_2. exact Hold.
Qed.

(** X3. Whatever the event, the handler touches no entry but that of the
    event's own cluster name, and never the selected provisioner. *)
Theorem handle_touches_own_name_only (w w' : Watcher) (ev : Event) (world world' : World)
    (e : option error) (name : string) :
  handleTidbEvent w ev world = Ok world' (w', e) ->
  name <> GetName (AfterPropertiesSet (ev_Object ev)) ->
  dbs w' !! name = dbs w !! name /\ dbRVs w' !! name = dbRVs w !! name
  /\ pvProvisioner w' = pvProvisioner w.
Proof.
  unfold handleTidbEvent. intros H Hne.
  destruct (ev_Type ev).
  - revert H. intros [= <- <- <-]. cbn. rewrite !lookup_insert_ne by congruence. auto.
  - destruct (dbs w !! _); [| revert H; intros [= <- <- <-]; auto].
    unfold bind in H. rewrite call_eq in H. revert H. intros [= <- <- <-].
    cbn. rewrite !lookup_insert_ne by congruence. auto.
  - destruct (dbs w !! _); [| revert H; intros [= <- <- <-]; auto].
    unfold bind in H. rewrite call_eq in H. revert H. intros [= <- <- <-].
    cbn. rewrite !lookup_delete_ne by congruence. auto.
  - revert H. intros [= <- <- <-]. auto.
Qed.

Lemma inStep_insert (w : Watcher) (db : Db) :
  inStep w ->
  inStep (set_maps (<[GetName db := db]> (dbs w))
                   (<[GetName db := ResourceVersion (db_Metadata db)]> (dbRVs w)) w).
Proof.
  intros [Hrv Hname]. split; cbn [dbs dbRVs set_maps].
  - rewrite fmap_insert, Hrv. reflexivity.
  - intros name d Hl. apply lookup_insert_Some in Hl as [[<- <-] | [_ Hl]]; eauto.
Qed.

Lemma inStep_delete (w : Watcher) (name : string) :
  inStep w -> inStep (set_maps (delete name (dbs w)) (delete name (dbRVs w)) w).
Proof.
  intros [Hrv Hname]. split; cbn [dbs dbRVs set_maps].
  - rewrite fmap_delete, Hrv. reflexivity.
  - intros n d Hl. apply lookup_delete_Some in Hl as [_ Hl]. eauto.
Qed.

Lemma handle_inStep (w w' : Watcher) (ev : Event) (world world' : World) (e : option error) :
  handleTidbEvent w ev world = Ok world' (w', e) -> inStep w -> inStep w'.
Proof.
  unfold handleTidbEvent. intros H Hin.
  destruct (ev_Type ev).
  - revert H. intros [= <- <- <-]. apply inStep_insert, Hin.
  - destruct (dbs w !! _); [| revert H; intros [= <- <- <-]; exact Hin].
    unfold bind in H. rewrite call_eq in H. revert H. intros [= <- <- <-].
    apply inStep_insert, Hin.
  - destruct (dbs w !! _); [| revert H; intros [= <- <- <-]; exact Hin].
    unfold bind in H. rewrite call_eq in H. revert H. intros [= <- <- <-].
    apply inStep_delete, Hin.
  - revert H. intros [= <- <- <-]. exact Hin.
Qed.

Lemma dispatch1_inStep (w w' : Watcher) (ev : Event) (world world' : World) :
  dispatch1 w ev world = Ok world' w' -> inStep w -> inStep w'.
Proof.
  unfold dispatch1, bind at 1.
  destruct (handleTidbEvent w ev world) as [w1 [wa e] | w1] eqn:Eh; [| discriminate].
  intros H Hin. apply handle_inStep in Eh; [| exact Hin].
  destruct e; cbn in H; revert H; intros [= <- <-]; exact Eh.
Qed.

(** X4. The dispatcher keeps the two maps in step through any sequence of
    events, failed ones included: the version cached for a name is always the
    resource version of the cluster stored under that name, the two maps
    track the same names, and every cluster is stored under its own name. *)
Theorem dispatch_keeps_maps_in_step (evs : list Event) (w w' : Watcher) (world world' : World) :
  inStep w ->
  dispatch w evs world = Ok world' w' ->
  inStep w' /\ dom (dbRVs w') = dom (dbs w').
Proof.
  intros Hin Hrun.
  assert (Hstep : inStep w').
  { revert w world Hin Hrun. induction evs as [| ev rest IH]; intros w world Hin; cbn [dispatch].
    - intros [= <- <-]. exact Hin.
    - unfold bind at 1.
      destruct (dispatch1 w ev world) as [w1 wa | w1] eqn:Ed; [| discriminate].
      apply dispatch1_inStep in Ed; [| exact Hin]. apply IH, Ed. }
  split; [exact Hstep |]. destruct Hstep as [-> _]. apply dom_fmap_L.
Qed.

(** X5. Added and then Deleted for a name that was not tracked: both maps are
    back to what they were. *)
Theorem added_then_deleted_restores (w : Watcher) (a d : Event) (world : World) :
  ev_Type a = Added -> ev_Type d = Deleted ->
  GetName (AfterPropertiesSet (ev_Object d)) = GetName (AfterPropertiesSet (ev_Object a)) ->
  dbs w !! GetName (AfterPropertiesSet (ev_Object a)) = None ->
  dbRVs w !! GetName (AfterPropertiesSet (ev_Object a)) = None ->
  exists world' w',
    dispatch w [a; d] world = Ok world' w' /\ dbs w' = dbs w /\ dbRVs w' = dbRVs w.
Proof.
  intros Ha Hd Hn Hdb Hrv.
  set (na := GetName (AfterPropertiesSet (ev_Object a))) in *.
  cbn [dispatch]. unfold bind at 1, dispatch1 at 1, bind at 1, handleTidbEvent at 1.
  rewrite Ha. fold na. cbn [ret snd fst].
  unfold bind at 1, dispatch1 at 1, bind at 1, handleTidbEvent at 1.
  rewrite Hd, Hn. cbn [dbs set_maps]. rewrite lookup_insert_eq.
  unfold bind at 1. rewrite call_eq. cbn [fst snd ret].
  match goal with
  | |- context [gc ?o ?n ?p ?k] => destruct (gc o n p k) as [k1 [e |]]
  end; cbn; eexists _, _; (split; [reflexivity |]);
    rewrite !delete_insert_id by assumption; auto.
Qed.

Lemma seed_unlisted (items : list Db) :
  forall (w : Watcher) (name : string),
    name ∉ map (fun item => Name (db_Metadata (AfterPropertiesSet item))) items ->
    dbs (seed w items) !! name = dbs w !! name
    /\ dbRVs (seed w items) !! name = dbRVs w !! name.
Proof.
  induction items as [| item rest IH]; intros w name Hn; cbn [seed]; [auto |].
  cbn [map] in Hn. apply not_elem_of_cons in Hn as [Hne Hn].
  destruct (IH (set_maps (<[Name (db_Metadata (AfterPropertiesSet item)) := AfterPropertiesSet item]> (dbs w))
                  (<[Name (db_Metadata (AfterPropertiesSet item))
                     := ResourceVersion (db_Metadata (AfterPropertiesSet item))]> (dbRVs w)) w)
              name Hn) as [-> ->].
  cbn [dbs dbRVs set_maps]. rewrite !lookup_insert_ne by congruence. auto.
Qed.

Lemma seed_keeps_config (items : list Db) :
  forall w : Watcher,
    cfg_PVProvisioner (seed w items) = cfg_PVProvisioner w
    /\ cfg_HostName (seed w items) = cfg_HostName w
    /\ pvProvisioner (seed w items) = pvProvisioner w.
Proof.
  induction items as [| item rest IH]; intros w; cbn [seed]; [auto |].
  destruct (IH (set_maps (<[Name (db_Metadata (AfterPropertiesSet item)) := AfterPropertiesSet item]> (dbs w))
                  (<[Name (db_Metadata (AfterPropertiesSet item))
                     := ResourceVersion (db_Metadata (AfterPropertiesSet item))]> (dbRVs w)) w))
    as (-> & -> & ->). auto.
Qed.

Lemma seed_inStep (items : list Db) : forall w : Watcher, inStep w -> inStep (seed w items).
Proof.
  induction items as [| item rest IH]; intros w Hin; cbn [seed]; [exact Hin |].
  apply IH. apply (inStep_insert w (AfterPropertiesSet item)), Hin.
Qed.

Lemma seed_size (items : list Db) :
  forall w : Watcher,
    NoDup (map (fun item => Name (db_Metadata (AfterPropertiesSet item))) items) ->
    (forall name, name ∈ map (fun item => Name (db_Metadata (AfterPropertiesSet item))) items ->
                  dbRVs w !! name = None) ->
    size (dbRVs (seed w items)) = (size (dbRVs w) + length items)%nat.
Proof.
  induction items as [| item rest IH]; intros w Hnd Hfresh; cbn [seed]; [cbn; lia |].
  cbn [map] in Hnd, Hfresh. apply NoDup_cons in Hnd as [Hhd Hnd].
  rewrite IH; cbn [dbRVs set_maps].
  - rewrite map_size_insert_None by (apply Hfresh; left). cbn [length]. lia.
  - exact Hnd.
  - intros name Hin. rewrite lookup_insert_ne; [apply Hfresh; right; exact Hin |].
    intros <-. contradiction.
Qed.

Lemma seed_listed (items : list Db) :
  forall w : Watcher,
    NoDup (map (fun item => Name (db_Metadata (AfterPropertiesSet item))) items) ->
    Forall (fun item => dbRVs (seed w items) !! Name (db_Metadata (AfterPropertiesSet item))
                        = Some (ResourceVersion (db_Metadata (AfterPropertiesSet item)))) items.
Proof.
  induction items as [| item rest IH]; intros w Hnd; cbn [seed]; [constructor |].
  cbn [map] in Hnd. apply NoDup_cons in Hnd as [Hhd Hnd].
  constructor; [| apply IH, Hnd].
  destruct (seed_unlisted rest
              (set_maps (<[Name (db_Metadata (AfterPropertiesSet item)) := AfterPropertiesSet item]> (dbs w))
                 (<[Name (db_Metadata (AfterPropertiesSet item))
                    := ResourceVersion (db_Metadata (AfterPropertiesSet item))]> (dbRVs w)) w)
              _ Hhd) as [_ ->].
  cbn [dbRVs set_maps]. apply lookup_insert_eq.
Qed.

(** X6. A list that is taken into an empty store is stable against that
    store: when [findAllDbs] has listed clusters of distinct names, and
    [AfterPropertiesSet] leaves the metadata alone, the stability check of the
    same clusters reports "stable" (and the watch version is that of the
    list). *)
Theorem relist_after_findAllDbs_is_stable (w : Watcher) (world : World) (k : K)
    (dbList : DbList) :
  (forall db, db_Metadata (AfterPropertiesSet db) = db_Metadata db) ->
  dbRVs w = ∅ ->
  NoDup (map (fun item => Name (db_Metadata item)) (Items dbList)) ->
  GetAllDbs (plat world) = (k, inr (Some dbList)) ->
  exists w',
    findAllDbs w world
    = Ok (mkWorld k (log world ++ [AGetAllDbs]))
         (w', inr (ResourceVersion (list_Metadata dbList)))
    /\ isDbsCacheUnstable w' (Items dbList) = false.
Proof.
  intros Hmeta Hempty Hnd Hlist.
  exists (seed w (Items dbList)). split.
  - unfold findAllDbs, bind. rewrite call_eq, Hlist. reflexivity.
  - assert (Hnames : map (fun item => Name (db_Metadata (AfterPropertiesSet item))) (Items dbList)
                     = map (fun item => Name (db_Metadata item)) (Items dbList)).
    { apply map_ext. intros item. rewrite Hmeta. reflexivity. }
    apply stable_iff. split.
    + rewrite seed_size.
      * rewrite Hempty, map_size_empty. reflexivity.
      * rewrite Hnames. exact Hnd.
      * intros name _. rewrite Hempty. apply lookup_empty.
    + pose proof (seed_listed (Items dbList) w) as HF.
      rewrite Hnames in HF. specialize (HF Hnd).
      eapply Forall_impl; [exact HF |]. cbn. intros item. rewrite Hmeta. auto.
Qed.

(** X7. [findAllDbs] only adds to the store: a cluster that is tracked and is
    not in the list stays tracked with its version (so what a failed startup
    attempt has seeded is still there after the next attempt). When the list
    cannot be had, or is nil, the store is as it was; a nil list gives the
    empty watch version. *)
Theorem findAllDbs_only_adds (w : Watcher) (world : World) :
  match GetAllDbs (plat world) with
  | (k, inl err) => findAllDbs w world = Ok (mkWorld k (log world ++ [AGetAllDbs])) (w, inl err)
  | (k, inr None) => findAllDbs w world = Ok (mkWorld k (log world ++ [AGetAllDbs])) (w, inr "")
  | (k, inr (Some dbList)) =>
      exists w',
        findAllDbs w world
        = Ok (mkWorld k (log world ++ [AGetAllDbs]))
             (w', inr (ResourceVersion (list_Metadata dbList)))
        /\ (forall name,
              name ∉ map (fun item => Name (db_Metadata (AfterPropertiesSet item))) (Items dbList) ->
              dbs w' !! name = dbs w !! name /\ dbRVs w' !! name = dbRVs w !! name)
        /\ (inStep w -> inStep w')
  end.
Proof.
  unfold findAllDbs, bind. rewrite call_eq.
  destruct (GetAllDbs (plat world)) as [k [err | [dbList |]]]; cbn [fst snd]; try reflexivity.
  exists (seed w (Items dbList)). split; [reflexivity |].
  split; [intros name Hn; apply seed_unlisted, Hn | apply seed_inStep].
Qed.

Lemma initResource_config (w w' : Watcher) (world world' : World) (r : error + string) :
  initResource w world = Ok world' (w', r) ->
  cfg_PVProvisioner w' = cfg_PVProvisioner w /\ cfg_HostName w' = cfg_HostName w
  /\ (inStep w -> inStep w')
  /\ match r with
     | inl _ => pvProvisioner w' = pvProvisioner w
     | inr _ =>
         match cfg_PVProvisioner w with
         | PVProvisionerNone => pvProvisioner w' = Some NilPVProvisioner
         | PVProvisionerHostpath =>
             exists volume, pvProvisioner w' = Some (HostPathPVProvisioner (cfg_HostName w) volume)
         | PVProvisionerOther _ => pvProvisioner w' = pvProvisioner w
         end
     end.
Proof.
  unfold initResource, bind at 1. rewrite call_eq.
  destruct (CreateTPR (plat world)) as [k1 [e |]]; cbn [fst snd].
  { intros [= <- <- <-]. auto. }
  unfold bind at 1, findAllDbs, bind at 1. rewrite call_eq. cbn [plat log].
  destruct (GetAllDbs k1) as [k2 [e | [dbList |]]]; cbn [fst snd ret].
  - intros [= <- <- <-]. auto.
  - destruct (seed_keeps_config (Items dbList) w) as (Hc & Hh & Hp).
    pose proof (seed_inStep (Items dbList) w) as Hs.
    destruct (cfg_PVProvisioner w) eqn:Ek.
    + intros [= <- <- <-]. cbn. auto.
    + unfold bind. rewrite call_eq. cbn [plat log].
      destruct (GetMetadata k2) as [k3 [e | vol]]; cbn [fst snd]; intros [= <- <- <-]; cbn; eauto 8.
    + intros [= <- <- <-]. auto.
  - destruct (cfg_PVProvisioner w) eqn:Ek.
    + intros [= <- <- <-]. cbn. auto.
    + unfold bind. rewrite call_eq. cbn [plat log].
      destruct (GetMetadata k2) as [k3 [e | vol]]; cbn [fst snd]; intros [= <- <- <-]; cbn; eauto 8.
    + intros [= <- <- <-]. auto.
Qed.

(** X8. On a configuration that [Validate] accepts, a successful
    [initResource] has selected the provisioner the configuration names (the
    no-op one for "none", the host-path one of this host for "hostpath"), so
    the recycle pass does not panic: it is one call of [Clean] on that
    provisioner. *)
Theorem validated_config_selects_provisioner (w w' : Watcher) (world world' : World)
    (ver : string) :
  Validate (cfg_PVProvisioner w) = None ->
  initResource w world = Ok world' (w', inr ver) ->
  exists pv,
    pvProvisioner w' = Some pv
    /\ (cfg_PVProvisioner w = PVProvisionerNone -> pv = NilPVProvisioner)
    /\ (cfg_PVProvisioner w = PVProvisionerHostpath ->
        exists volume, pv = HostPathPVProvisioner (cfg_HostName w) volume)
    /\ recycle w' world'
       = Ok (mkWorld (Clean pv (allStores w') (plat world')).1
                     (log world' ++ [AClean pv (allStores w')]))
            (Clean pv (allStores w') (plat world')).2.
Proof.
  intros Hv Hi. apply initResource_config in Hi as (_ & _ & _ & Hp).
  unfold recycle. destruct (cfg_PVProvisioner w) eqn:Ek; [| | discriminate].
  - exists NilPVProvisioner. rewrite Hp, call_eq.
    split; [reflexivity |]. split; [reflexivity |]. split; [discriminate | reflexivity].
  - destruct Hp as [vol Hp]. exists (HostPathPVProvisioner (cfg_HostName w) vol).
    rewrite Hp, call_eq.
    split; [reflexivity |]. split; [discriminate |]. split; [eauto | reflexivity].
Qed.

Lemma initLoop_other (fuel : nat) :
  forall (w w1 : Watcher) (world world1 : World) (ver : string) (s : string),
    cfg_PVProvisioner w = PVProvisionerOther s ->
    initLoop fuel w world = Ok world1 (Some (w1, ver)) ->
    pvProvisioner w1 = pvProvisioner w.
Proof.
  induction fuel as [| fuel IH]; intros w w1 world world1 ver s Hk; cbn [initLoop];
    [discriminate |].
  unfold bind at 1.
  destruct (initResource w world) as [wa [wi r] | wa] eqn:Ei; [| discriminate].
  apply initResource_config in Ei as (Hc & _ & _ & Hp). rewrite Hk in Hp.
  destruct r as [err | v]; cbn [snd fst].
  - unfold bind. cbn. intros Hrun.
    apply (IH _ _ _ _ _ s) in Hrun; [congruence | congruence].
  - intros [= <- <- <-]. exact Hp.
Qed.

(** X9. On a configuration that [Validate] rejects, no provisioner is ever
    selected: once the startup loop has succeeded, [Run] panics in the recycle
    pass (a call on the nil provisioner) instead of returning an error. *)
Theorem unsupported_provisioner_panics (fuel : nat) (w w1 : Watcher) (world world1 : World)
    (ver : string) :
  Validate (cfg_PVProvisioner w) <> None ->
  pvProvisioner w = None ->
  initLoop fuel w world = Ok world1 (Some (w1, ver)) ->
  Run fuel w world = Panic world1.
Proof.
  intros Hv Hnone Hinit.
  destruct (cfg_PVProvisioner w) as [| | s] eqn:Ek; try (exfalso; apply Hv; reflexivity).
  pose proof (initLoop_other fuel w w1 world world1 ver s Ek Hinit) as Hp.
  rewrite (Run_started fuel w w1 ver world world1 Hinit).
  unfold recycle. rewrite Hp, Hnone. reflexivity.
Qed.

(** X10. The live set that [recycle] hands to the provisioner's [Clean] is
    exactly the stores of the clusters in the store: every store of every
    known cluster, and nothing else. *)
Theorem recycle_passes_all_known_stores (w : Watcher) (world world' : World)
    (e : option error) :
  recycle w world = Ok world' e ->
  exists pv all,
    log world' = log world ++ [AClean pv all]
    /\ forall s, s ∈ all <-> exists name db, dbs w !! name = Some db /\ s ∈ Stores (db_Tikv db).
Proof.
  intros Hr. destruct (recycle_log _ _ _ _ Hr) as (pv & _ & Hl).
  exists pv, (allStores w). split; [exact Hl |].
  intros s. unfold allStores. rewrite list_elem_of_In, in_concat. split.
  - intros (l & Hl1 & Hl2). apply in_map_iff in Hl1 as ([name db] & <- & Hin).
    apply list_elem_of_In, elem_of_map_to_list in Hin.
    exists name, db. split; [exact Hin | apply list_elem_of_In, Hl2].
  - intros (name & db & Hdb & Hs). exists (Stores (db_Tikv db)). split.
    + apply in_map_iff. exists (name, db). split; [reflexivity |].
      apply list_elem_of_In, elem_of_map_to_list, Hdb.
    + apply list_elem_of_In, Hs.
Qed.

Lemma sweep_all (known : list Db) :
  forall world : World,
  exists world' l,
    sweep known world = Ok world' tt
    /\ log world' = log world ++ l
    /\ countActs isDeleteBuried l = length known
    /\ forall db, db ∈ known -> ADeleteBuriedTikv db ∈ l.
Proof.
  induction known as [| db rest IH]; intros world; cbn [sweep].
  - exists world, []. rewrite app_nil_r. repeat split. intros db H. inversion H.
  - unfold bind at 1. rewrite call_eq.
    destruct (DeleteBuriedTikv db (plat world)) as [k [err |]]; cbn [fst snd].
    + unfold bind, emit. cbn [plat log].
      match goal with
      | |- context [sweep rest ?x] => destruct (IH x) as (world' & l & Hrun & Hl & Hc & Hall)
      end.
      cbn [log] in Hl.
      exists world', ([ADeleteBuriedTikv db] ++ [ALogError ("failed to delete buried tikv of "
                                                            +:+ GetName db +:+ ": " +:+ err)] ++ l).
      split; [exact Hrun |]. split; [rewrite Hl, <- !app_assoc; reflexivity |]. split.
      * rewrite !countActs_app, Hc. reflexivity.
      * intros d Hd. apply elem_of_cons in Hd as [-> | Hd]; [left |].
        right. right. apply Hall, Hd.
    + match goal with
      | |- context [sweep rest ?x] => destruct (IH x) as (world' & l & Hrun & Hl & Hc & Hall)
      end.
      cbn [log] in Hl.
      exists world', ([ADeleteBuriedTikv db] ++ l).
      split; [exact Hrun |]. split; [rewrite Hl, <- !app_assoc; reflexivity |]. split.
      * rewrite !countActs_app, Hc. reflexivity.
      * intros d Hd. apply elem_of_cons in Hd as [-> | Hd]; [left |].
        right. apply Hall, Hd.
Qed.

(** X11. The periodic sweep never stops at a cluster that fails and never
    panics: [cleanClusters] asks for the buried stores of every known cluster
    to be deleted, once per cluster, whatever the answers. *)
Theorem cleanClusters_sweeps_every_cluster (w : Watcher) (world : World) :
  exists world' l,
    cleanClusters w world = Ok world' tt
    /\ log world' = log world ++ l
    /\ countActs isDeleteBuried l = size (dbs w)
    /\ forall name db, dbs w !! name = Some db -> ADeleteBuriedTikv db ∈ l.
Proof.
  unfold cleanClusters.
  destruct (sweep_all (map snd (map_to_list (dbs w))) world) as (world' & l & Hrun & Hl & Hc & Hall).
  exists world', l. split; [exact Hrun |]. split; [exact Hl |]. split.
  - rewrite Hc, length_map. apply length_map_to_list.
  - intros name db Hdb. apply Hall.
    apply (list_elem_of_fmap_2 snd (map_to_list (dbs w)) (name, db)).
    apply elem_of_map_to_list, Hdb.
Qed.


End StoreProperties.

(** ** The reconciler: upgrade, recheck and scale *)

Section ReconcilerProperties.
Context `{G : Gateway}.
Import Operator.

Lemma upgradePods_skip_all (skipped pods : list Pod) (d : Db) (up : bool) (w : World) :
  Forall (fun p => needUpgrade p (td_Version d) = false) skipped ->
  upgradePods (skipped ++ pods) d up w = upgradePods pods d up w.
Proof.
  induction 1 as [| p skipped Hp _ IH]; [reflexivity |].
  cbn [app]. rewrite upgradePods_skip by exact Hp. exact IH.
Qed.

(** X13. The health gate reads the first outer status address before anything
    else, also when it is going to ask a pod: on a started cluster that has
    none, an upgrade updates the image, deletes the first pod that needs it,
    waits the grace period and then panics; what is left is the audit event
    of the deferred function, without an error. *)
Theorem upgrade_without_status_address_panics (db : Db) (world : World) (k1 k2 k3 : K)
    (skipped rest : list Pod) (pod : Pod) :
  PhaseTidbStarted <= Phase (db_Status db) ->
  OuterStatusAddresses (db_Status db) = [] ->
  upgradeRC ("tidb-" +:+ GetName db) (imageRegistry +:+ "/tidb:" +:+ td_Version db)
            (td_Version db) (plat world) = (k1, None) ->
  GetPods (GetName db) "tidb" k1 = (k2, inr (skipped ++ pod :: rest)) ->
  Forall (fun p => needUpgrade p (td_Version db) = false) skipped ->
  needUpgrade pod (td_Version db) = true ->
  DeletePods (pod_Name pod) k2 = (k3, None) ->
  upgrade db world
  = Panic (mkWorld (sleep (8 * Second) k3)
             (log world ++ [AUpgradeRC ("tidb-" +:+ GetName db)
                                       (imageRegistry +:+ "/tidb:" +:+ td_Version db)
                                       (td_Version db);
                            AGetPods (GetName db) "tidb";
                            ADeletePods (pod_Name pod); ASleep (8 * Second);
                            upgradeTrace db None])).
Proof.
  intros Hp Haddr Hrc Hg Hskip Hneed Hdel.
  rewrite (upgrade_started db world k1 k2 _ Hp Hrc Hg).
  rewrite upgradePods_skip_all by exact Hskip.
  rewrite upgradePods_need by exact Hneed.
  cbn [plat log]. rewrite Hdel.
  unfold waitForOk. cbn [set_cur db_Status]. rewrite Haddr.
  unfold panic, logged. cbn [plat log]. rewrite <- !app_assoc. reflexivity.
Qed.

Lemma poll_failed_unchanged (url : string) (db db' : Db) (w w' : World)
    (r : bool * option error) :
  waitForOk_poll url db w = Ok w' (db', r) -> failed r -> db' = db.
Proof.
  unfold waitForOk_poll, syncMembers, bind, call, ret. cbn [plat log].
  destruct (GetPods (GetName db) "tidb" (plat w)) as [k1 [e | pods]]; [congruence |].
  destruct (negb _); [congruence |]. cbn [plat log].
  destruct (httpGet url (2 * Second) k1) as [k2 [e |]]; [congruence |]. cbn [plat log].
  destruct (ListPodNames (GetName db) "tidb" k2) as [k3 [e | names]]; cbn [snd fst];
    [congruence |].
  intros [= <- <- <-] Hf. exfalso. apply Hf. reflexivity.
Qed.

Lemma retryLoop_failed_state {St} (interval maxRetries : Z)
    (f : St -> M (St * (bool * option error))) :
  (forall s w w' s' r, f s w = Ok w' (s', r) -> failed r -> s' = s) ->
  forall (n : nat) s w w' s' e,
    retryLoop interval maxRetries n f s w = Ok w' (s', Some e) -> s' = s.
Proof.
  intros Hf. induction n as [| n IH]; intros s w w' s' e; cbn [retryLoop].
  - unfold ret. congruence.
  - unfold bind at 1. destruct (f s w) as [w1 [s1 r] | w1] eqn:Ef; [| discriminate].
    assert (Hrest : failed r ->
              (match n with O => ret tt | S _ => Sleep interval end ;;;
               retryLoop interval maxRetries n f s1)%go w1 = Ok w' (s', Some e) -> s' = s).
    { intros Hr Hrun. rewrite <- (Hf _ _ _ _ _ Ef Hr).
      unfold bind in Hrun. destruct n; cbn in Hrun; eapply IH; exact Hrun. }
    destruct r as [[] [err |]]; cbn [snd fst]; try (apply Hrest; unfold failed; congruence).
    unfold ret. discriminate.
Qed.

(** X14. A health gate that fails leaves the cluster exactly as it was: the
    members are replaced only in the attempt that succeeds, and then by the
    names of the live pods; nothing else of the cluster is ever changed. *)
Theorem failed_gate_leaves_cluster (db db' : Db) (w w' : World) (e : option error) :
  waitForOk db w = Ok w' (db', e) ->
  match e with
  | Some _ => db' = db
  | None => exists names, db' = set_Members (map mkMember names) db
  end.
Proof.
  intros Hrun. destruct e as [err |].
  - revert Hrun. unfold waitForOk.
    destruct (OuterStatusAddresses (db_Status db)) as [| first rest]; [discriminate |].
    unfold Retry. apply retryLoop_failed_state. intros s w0 w1 s' r. apply poll_failed_unchanged.
  - pose proof (waitForOk_core _ _ _ _ Hrun) as (Hm & Hs & Hsp & Hc & Ht). cbn in *.
    exists (map member_Name (td_Members (db_Tidb db'))).
    destruct db' as [m s [sp ms c] t]. destruct db as [m0 s0 [sp0 ms0 c0] t0].
    cbn in *. subst. unfold set_Members. cbn. repeat f_equal.
    rewrite map_map. clear. induction ms as [| [x] ms IH]; cbn; [reflexivity | f_equal; exact IH].
Qed.

Lemma upgradePods_keeps (pods : list Pod) :
  forall (d : Db) (up : bool) (w w' : World) (r : Db * bool * option error),
    upgradePods pods d up w = Ok w' r ->
    db_Metadata r.1.1 = db_Metadata d /\ db_Status r.1.1 = db_Status d
    /\ td_Spec (db_Tidb r.1.1) = td_Spec (db_Tidb d) /\ db_Tikv r.1.1 = db_Tikv d.
Proof.
  induction pods as [| pod rest IH]; intros d up w w' r.
  - cbn. unfold ret. intros [= <- <-]. auto.
  - destruct (needUpgrade pod (td_Version d)) eqn:Hneed.
    + rewrite upgradePods_need by exact Hneed.
      destruct (DeletePods (pod_Name pod) (plat w)) as [k [err |]].
      * intros [= <- <-]. auto.
      * destruct (waitForOk _ _) as [w3 [d3 [err |]] | w3] eqn:Ew; [| | discriminate];
          apply waitForOk_core in Ew; destruct Ew as (Hm & Hs & Hsp & _ & Ht); cbn in *.
        -- intros [= <- <-]. auto.
        -- intros Hrun. apply IH in Hrun as (? & ? & ? & ?). repeat split; congruence.
    + rewrite upgradePods_skip by exact Hneed. apply IH.
Qed.

(** X15. However an upgrade ends, the pod it was asking is forgotten ([cur] is
    empty again, so that later gates ask the service address), and the
    metadata, the status (phase, addresses), the spec (version, replica count)
    and the stores of the cluster are as before. *)
Theorem upgrade_resets_cur_and_keeps_cluster (db db' : Db) (w w' : World) (e : option error) :
  upgrade db w = Ok w' (db', e) ->
  td_cur (db_Tidb db') = ""
  /\ db_Metadata db' = db_Metadata db /\ db_Status db' = db_Status db
  /\ td_Spec (db_Tidb db') = td_Spec (db_Tidb db) /\ db_Tikv db' = db_Tikv db.
Proof.
  unfold upgrade, bind at 1, deferred_on_panic.
  destruct (upgradeBody db w) as [w1 [[d up] e1] | w1] eqn:Eb; [| discriminate].
  assert (Hk : db_Metadata d = db_Metadata db /\ db_Status d = db_Status db
               /\ td_Spec (db_Tidb d) = td_Spec (db_Tidb db) /\ db_Tikv d = db_Tikv db).
  { revert Eb. unfold upgradeBody.
    destruct (Phase (db_Status db) <? PhaseTidbStarted); [intros [= <- <- <- <-]; auto |].
    unfold bind at 1. rewrite call_eq.
    destruct (upgradeRC _ _ _ _) as [k1 [err |]]; cbn [fst snd]; [intros [= <- <- <- <-]; auto |].
    unfold bind at 1. rewrite call_eq. cbn [plat log].
    destruct (GetPods _ _ _) as [k2 [err | pods]]; cbn [fst snd];
      [intros [= <- <- <- <-]; auto |].
    intros Hrun. apply upgradePods_keeps in Hrun. exact Hrun. }
  cbn [fst snd]. unfold bind, emit, ret.
  destruct (up || bool_decide (is_Some e1)); intros [= <- <- <-]; cbn; tauto.
Qed.

(** X16. An upgrade of a started cluster whose pods all run the target image
    still updates the image of the controller and lists the pods, but deletes
    nothing, waits for nothing and records no audit event. *)
Theorem upgrade_with_nothing_to_do (db : Db) (world : World) (k1 k2 : K) (pods : list Pod) :
  PhaseTidbStarted <= Phase (db_Status db) ->
  upgradeRC ("tidb-" +:+ GetName db) (imageRegistry +:+ "/tidb:" +:+ td_Version db)
            (td_Version db) (plat world) = (k1, None) ->
  GetPods (GetName db) "tidb" k1 = (k2, inr pods) ->
  Forall (fun p => needUpgrade p (td_Version db) = false) pods ->
  upgrade db world
  = Ok (mkWorld k2 (log world ++ [AUpgradeRC ("tidb-" +:+ GetName db)
                                             (imageRegistry +:+ "/tidb:" +:+ td_Version db)
                                             (td_Version db);
                                  AGetPods (GetName db) "tidb"]))
       (set_cur "" db, None).
Proof.
  intros Hp Hrc Hg Hall.
  rewrite (upgrade_started db world k1 k2 pods Hp Hrc Hg).
  rewrite <- (app_nil_r pods), upgradePods_skip_all by exact Hall. reflexivity.
Qed.

(** X17. When the image of the controller cannot be updated, or the pods
    cannot be listed, the upgrade of a started cluster returns that error, has
    deleted no pod, and has recorded the audit event with the error. *)
Theorem upgrade_fails_before_any_pod (db : Db) (world : World) :
  PhaseTidbStarted <= Phase (db_Status db) ->
  let rc := AUpgradeRC ("tidb-" +:+ GetName db)
                       (imageRegistry +:+ "/tidb:" +:+ td_Version db) (td_Version db) in
  match upgradeRC ("tidb-" +:+ GetName db) (imageRegistry +:+ "/tidb:" +:+ td_Version db)
                  (td_Version db) (plat world) with
  | (k1, Some err) =>
      upgrade db world
      = Ok (mkWorld k1 (log world ++ [rc; upgradeTrace db (Some err)])) (set_cur "" db, Some err)
  | (k1, None) =>
      forall k2 err,
        GetPods (GetName db) "tidb" k1 = (k2, inl err) ->
        upgrade db world
        = Ok (mkWorld k2 (log world ++ [rc; AGetPods (GetName db) "tidb";
                                        upgradeTrace db (Some err)]))
             (set_cur "" db, Some err)
  end.
Proof.
  intros Hp rc. apply Z.ltb_ge in Hp.
  destruct (upgradeRC _ _ _ _) as [k1 [err |]] eqn:Erc.
  - unfold upgrade, bind at 1, deferred_on_panic, upgradeBody. rewrite Hp.
    unfold bind at 1. rewrite call_eq, Erc. cbn [fst snd].
    unfold bind, emit, ret, upgradeTrace. cbn. rewrite <- app_assoc. reflexivity.
  - intros k2 err Hg.
    unfold upgrade, bind at 1, deferred_on_panic, upgradeBody. rewrite Hp.
    unfold bind at 1. rewrite call_eq, Erc. cbn [fst snd].
    unfold bind at 1. rewrite call_eq. cbn [plat log]. rewrite Hg. cbn [fst snd].
    unfold bind, emit, ret, upgradeTrace. cbn. rewrite <- !app_assoc. reflexivity.
Qed.

(** What a run of deletions ends with is determined by the platform. *)
Lemma Deletes_error (k : K) (names : list string) (k1 k2 : K) (e1 e2 : option error) :
  Deletes k names k1 e1 -> Deletes k names k2 e2 -> e1 = e2.
Proof.
  intros H1. revert k2 e2.
  induction H1 as [k | k p ka ps k' e Hp _ IH | k p ka err Hp]; intros k2 e2 H2.
  - inversion H2; reflexivity.
  - inversion H2 as [| ? ? kb ? ? ? Hq Hrest | ? ? kb err' Hq]; subst.
    + rewrite Hp in Hq. injection Hq as <-. exact (IH _ _ Hrest).
    + rewrite Hp in Hq. discriminate Hq.
  - inversion H2 as [| ? ? kb ? ? ? Hq Hrest | ? ? kb err' Hq]; subst.
    + rewrite Hp in Hq. discriminate Hq.
    + rewrite Hp in Hq. injection Hq as _ <-. reflexivity.
Qed.

Lemma checkPods_log (pods : list Pod) :
  forall world : World,
  exists world' e deleted,
    checkPods pods world = Ok world' e
    /\ log world' = log world ++ map ADeletePods deleted
    /\ Deletes (plat world) deleted (plat world') e
    /\ (exists rest, map pod_Name (List.filter (fun p => negb (IsPodOk p)) pods) = deleted ++ rest)
    /\ (e = None -> deleted = map pod_Name (List.filter (fun p => negb (IsPodOk p)) pods)).
Proof.
  induction pods as [| pod rest IH]; intros world; cbn [checkPods List.filter].
  - exists world, None, []. cbn. rewrite app_nil_r. unfold ret.
    repeat split; [constructor |]. exists []. reflexivity.
  - destruct (IsPodOk pod); cbn [negb].
    + apply IH.
    + unfold bind. rewrite call_eq.
      destruct (DeletePods (pod_Name pod) (plat world)) as [k [err |]] eqn:Ed; cbn [fst snd map].
      * exists (mkWorld k (log world ++ [ADeletePods (pod_Name pod)])), (Some err), [pod_Name pod].
        unfold ret. split; [reflexivity |]. split; [reflexivity |].
        split; [apply deletes_failed; exact Ed |].
        split; [eexists; reflexivity | discriminate].
      * destruct (IH (mkWorld k (log world ++ [ADeletePods (pod_Name pod)])))
          as (world' & e & deleted & Hrun & Hl & Hdel & [more Hpre] & Hall).
        exists world', e, (pod_Name pod :: deleted).
        split; [exact Hrun |]. cbn [log plat] in Hl, Hdel.
        split; [rewrite Hl, <- app_assoc; reflexivity |].
        split; [exact (deletes_next _ _ _ _ _ _ Ed Hdel) |].
        split; [exists more; cbn; rewrite Hpre; reflexivity |].
        intros He. rewrite (Hall He). reflexivity.
Qed.

(** X18. The status recheck never panics. When the pods cannot be listed it
    returns that error and deletes nothing. Otherwise it deletes the pods that
    are not ok, in the order of the list and nothing else, each in the state
    of the platform that the deletion before has left, and stops at the first
    deletion that fails, whose error it returns ([Deletes]): what it has asked
    to delete is a prefix of the pods that are not ok, and all of them when it
    returns no error. *)
Theorem checkStatus_deletes_pods_not_ok (db : Db) (world : World) :
  match GetPods (GetName db) "tidb" (plat world) with
  | (k, inl err) =>
      checkStatus db world
      = Ok (mkWorld k (log world ++ [AGetPods (GetName db) "tidb"])) (Some err)
  | (k, inr pods) =>
      let notOk := map pod_Name (List.filter (fun p => negb (IsPodOk p)) pods) in
      exists world' e deleted,
        checkStatus db world = Ok world' e
        /\ log world' = log world ++ AGetPods (GetName db) "tidb" :: map ADeletePods deleted
        /\ Deletes k deleted (plat world') e
        /\ (exists rest, notOk = deleted ++ rest)
        /\ (e = None <-> deleted = notOk /\ Deletes k notOk (plat world') None)
  end.
Proof.
  unfold checkStatus, bind. rewrite call_eq.
  destruct (GetPods (GetName db) "tidb" (plat world)) as [k [err | pods]]; cbn [fst snd];
    [reflexivity |].
  destruct (checkPods_log pods (mkWorld k (log world ++ [AGetPods (GetName db) "tidb"])))
    as (world' & e & deleted & Hrun & Hl & Hdel & Hpre & Hall).
  exists world', e, deleted. split; [exact Hrun |].
  split; [rewrite Hl; cbn [log]; rewrite <- app_assoc; reflexivity |].
  cbn [plat] in Hdel. split; [exact Hdel |]. split; [exact Hpre |].
  split.
  - intros He. split; [exact (Hall He) |]. rewrite <- (Hall He), <- He. exact Hdel.
  - intros [Hd Hnone]. rewrite <- Hd in Hnone.
    exact (Deletes_error _ _ _ _ _ _ Hdel Hnone).
Qed.

Lemma scaleBody_status (db d : Db) (r : Z) (w w' : World) (e : option error) :
  scaleBody db r w = Ok w' (d, e) -> db_Status d = db_Status db.
Proof.
  unfold scaleBody, bind at 1, ask.
  destruct (r >? _); [intros [= <- <- <-]; reflexivity |].
  destruct (r <? 2); [intros [= <- <- <-]; reflexivity |].
  destruct (r >? _); [intros [= <- <- <-]; reflexivity |].
  destruct (_ >? _); [intros [= <- <- <-]; reflexivity |].
  unfold bind. rewrite call_eq. cbn [plat log].
  destruct (ScaleReplicationController _ _ _) as [k [err |]]; cbn [fst snd].
  - intros [= <- <- <-]. reflexivity.
  - intros Hrun. apply waitForOk_core in Hrun as (_ & Hs & _). exact Hs.
Qed.

Lemma land_lor_same (a b : Z) : Z.land a (Z.lor a b) = a.
Proof.
  apply Z.bits_inj'. intros n Hn. rewrite Z.land_spec, Z.lor_spec.
  destruct (Z.testbit a n), (Z.testbit b n); reflexivity.
Qed.

Lemma land_lor_other (a b : Z) : Z.land (Z.lor a b) b = b.
Proof.
  apply Z.bits_inj'. intros n Hn. rewrite Z.land_spec, Z.lor_spec.
  destruct (Z.testbit a n), (Z.testbit b n); reflexivity.
Qed.

(** X19. A scale request never clears the scale-error bits: every bit of the
    scale state that was set is still set afterwards, also after a scale that
    succeeds. A request that is not a no-op and ends in an error (rejected,
    or failed on the platform or in the gate) has the scale-error bits set; a
    no-op request leaves the cluster as it is even when its recheck fails. *)
Theorem scale_error_bits_are_sticky (db db' : Db) (r : Z) (w w' : World) (e : option error) :
  reconcileTidbs db r w = Ok w' (db', e) ->
  Z.land (ScaleState (db_Status db)) (ScaleState (db_Status db')) = ScaleState (db_Status db)
  /\ (r < 1 \/ r = td_Replicas db -> db' = db)
  /\ (1 <= r -> r <> td_Replicas db -> e <> None ->
      Z.land (ScaleState (db_Status db')) tidbScaleErr = tidbScaleErr).
Proof.
  intros Hrun.
  destruct ((r <? 1) || (r =? td_Replicas db)) eqn:Hif.
  - assert (Hdb : db' = db).
    { revert Hrun. unfold reconcileTidbs. rewrite Hif. unfold bind.
      destruct (checkStatus db w) as [w1 e1 | w1]; [| discriminate].
      unfold ret. intros [= <- <- <-]. reflexivity. }
    subst db'. split; [apply Z.land_diag |]. split; [reflexivity |].
    apply orb_true_iff in Hif. intros; lia.
  - rewrite (reconcileTidbs_scale db r w Hif) in Hrun.
    destruct (scaleBody db r w) as [w1 [d e1] | w1] eqn:Eb; [| discriminate].
    apply scaleBody_status in Eb. cbn [fst snd] in Hrun.
    revert Hrun. intros [= <- <- <-].
    apply orb_false_iff in Hif. split; [| split].
    + destruct e1; cbn; rewrite Eb; [apply land_lor_same | apply Z.land_diag].
    + intros; lia.
    + intros _ _ He. destruct e1; [| contradiction].
      cbn. rewrite Eb. apply land_lor_other.
Qed.

End ReconcilerProperties.

(** ** Installing and uninstalling the role *)

Section InstallProperties.
Context `{I : Installer}.
Import Operator Install.

Lemma step_eq {A} (f : K -> K * A) (w : World) :
  step f w = Ok (mkWorld (f (plat w)).1 (log w)) (f (plat w)).2.
Proof. reflexivity. Qed.

Lemma grows_step {A} (P : Action -> Prop) (f : K -> K * A) : grows P (step f).
Proof. intros w. exists []. cbn. rewrite app_nil_r. auto. Qed.

Lemma grows_ask' {A} (P : Action -> Prop) (f : K -> A) : grows P (ask f).
Proof. intros w. exists []. cbn. rewrite app_nil_r. auto. Qed.

(** What [createService] changes: the two address lists, by appending. *)
Lemma createService_keeps (db d : Db) (w w' : World) (e : option error) :
  createService db w = Ok w' (d, e) ->
  log w' = log w
  /\ db_Metadata d = db_Metadata db /\ db_Tidb d = db_Tidb db /\ db_Tikv d = db_Tikv db
  /\ Phase (db_Status d) = Phase (db_Status db)
  /\ ScaleState (db_Status d) = ScaleState (db_Status db)
  /\ (exists more, OuterAddresses (db_Status d) = OuterAddresses (db_Status db) ++ more)
  /\ (exists more, OuterStatusAddresses (db_Status d)
                   = OuterStatusAddresses (db_Status db) ++ more
                   /\ (e = None -> length more = 1%nat)).
Proof.
  unfold createService.
  destruct (toJSONTemplate db tidbServiceYaml) as [err | j].
  { intros [= <- <- <-]. repeat split; exists []; rewrite app_nil_r; [auto |].
    split; [reflexivity | discriminate]. }
  unfold bind at 1. rewrite step_eq.
  destruct (CreateServiceByJSON j (plat w)) as [k [err | ports]]; cbn [fst snd].
  { intros [= <- <- <-]. repeat split; exists []; rewrite app_nil_r; [auto |].
    split; [reflexivity | discriminate]. }
  unfold bind, ask. cbn [plat log].
  destruct (getProxys k) as [| py0 pys]; [discriminate |].
  destruct ports as [| p0 [| p1 ports]]; try discriminate.
  intros [= <- <- <-]. cbn. repeat split; eauto.
Qed.

(** X20. [createService] only appends to the addresses of the cluster: one
    outer address per proxy and one status address. A cluster that already
    has a status address therefore keeps it as the first one, the one the
    health gate asks, when it is installed again. Nothing is entered in the
    log and nothing else of the cluster changes. *)
Theorem createService_appends_addresses (db d : Db) (w w' : World) :
  createService db w = Ok w' (d, None) ->
  (exists more, OuterAddresses (db_Status d) = OuterAddresses (db_Status db) ++ more
                /\ length more = length (getProxys (plat w')))
  /\ (exists one, OuterStatusAddresses (db_Status d)
                  = OuterStatusAddresses (db_Status db) ++ [one])
  /\ (OuterStatusAddresses (db_Status db) <> [] -> gateURL d = gateURL db)
  /\ OuterStatusAddresses (db_Status d) <> [].
Proof.
  intros Hrun.
  assert (Hexact : exists py0 pys p0 p1,
             getProxys (plat w') = py0 :: pys
             /\ OuterAddresses (db_Status d)
                = OuterAddresses (db_Status db) ++ map (fun py => hostPort py p0) (py0 :: pys)
             /\ OuterStatusAddresses (db_Status d)
                = OuterStatusAddresses (db_Status db) ++ [hostPort py0 p1]
             /\ db_Tidb d = db_Tidb db).
  { revert Hrun. unfold createService.
    destruct (toJSONTemplate db tidbServiceYaml) as [err | j]; [discriminate |].
    unfold bind at 1. rewrite step_eq.
    destruct (CreateServiceByJSON j (plat w)) as [k [err | ports]]; cbn [fst snd];
      [discriminate |].
    unfold bind, ask. cbn [plat log].
    destruct (getProxys k) as [| py0 pys] eqn:Ep; [discriminate |].
    destruct ports as [| p0 [| p1 ports]]; try discriminate.
    intros [= <- <-]. cbn [plat]. rewrite Ep. exists py0, pys, p0, p1. cbn. auto. }
  destruct Hexact as (py0 & pys & p0 & p1 & Hp & Ha & Hs & Ht).
  split; [eexists; split; [exact Ha | rewrite Hp, length_map; reflexivity] |].
  split; [eauto |]. split.
  - intros Hne. unfold gateURL, statusURL. rewrite Hs, Ht.
    destruct (OuterStatusAddresses (db_Status db)); [contradiction | reflexivity].
  - rewrite Hs. destruct (OuterStatusAddresses (db_Status db)); discriminate.
Qed.

Lemma createRC_log (d : Db) (w w' : World) (e : option error) :
  createReplicationController d w = Ok w' e -> log w' = log w.
Proof.
  unfold createReplicationController.
  destruct (toJSONTemplate d tidbRcYaml); [intros [= <- _]; reflexivity |].
  rewrite step_eq. intros [= <- _]. reflexivity.
Qed.

Lemma installBody_keeps (db d : Db) (w w' : World) (e : option error) :
  installBody db w = Ok w' (d, e) ->
  db_Metadata d = db_Metadata db /\ td_Spec (db_Tidb d) = td_Spec (db_Tidb db)
  /\ ScaleState (db_Status d) = ScaleState (db_Status db)
  /\ db_Tikv d = db_Tikv db
  /\ exists l, log w' = log w ++ l.
Proof.
  unfold installBody, bind at 1.
  destruct (createService db w) as [w1 [d1 e1] | w1] eqn:Es; [| discriminate].
  apply createService_keeps in Es as (Hl & Hm & Ht & Hk & _ & Hsc & _).
  destruct e1 as [err |]; cbn [snd fst].
  { intros [= <- <- <-]. rewrite Ht. repeat split; try assumption.
    exists []. rewrite app_nil_r. exact Hl. }
  unfold bind at 1.
  destruct (createReplicationController d1 w1) as [w2 e2 | w2] eqn:Erc; [| discriminate].
  apply createRC_log in Erc. destruct e2 as [err |].
  { intros [= <- <- <-]. rewrite Ht. repeat split; try assumption.
    exists []. rewrite app_nil_r. congruence. }
  intros Hrun. destruct (waitForOk_grows d1 w2) as [l [El _]]. rewrite Hrun in El. cbn in El.
  apply waitForOk_core in Hrun as (Hm2 & Hs2 & Hsp2 & _ & Hk2). cbn in *.
  rewrite Hm2, Hsp2, Hs2, Hk2, Ht. repeat split; try assumption.
  exists l. rewrite El. congruence.
Qed.

Lemma install_eq (db : Db) (world : World) :
  install db world
  = match update (set_Phase PhaseTidbPending db) (plat world) with
    | (k, Some err) => Ok (mkWorld k (log world)) (set_Phase PhaseTidbPending db, Some err)
    | (k, None) =>
        match installBody (set_Phase PhaseTidbPending db) (mkWorld k (log world)) with
        | Ok w1 r =>
            Ok (logged w1 [ATrace (GetName db) "tidb/tidb" "install" r.2 (installMessage r.1)])
               (set_Phase match r.2 with
                          | Some _ => PhaseTidbStartFailed
                          | None => PhaseTidbStarted
                          end r.1, r.2)
        | Panic w1 =>
            Panic (logged w1 [ATrace (GetName db) "tidb/tidb" "install" None
                                     (installMessage (set_Phase PhaseTidbPending db))])
        end
    end.
Proof.
  unfold install, bind, deferred_on_panic, step, emit, ret, logged. cbn [plat log].
  destruct (update (set_Phase PhaseTidbPending db) (plat world)) as [k [err |]]; cbn [fst snd];
    [reflexivity |].
  destruct (installBody _ _) as [w1 [d e1] | w1]; reflexivity.
Qed.

(** X21. How [install] leaves the phase. When the first update of the
    cluster fails, the phase stays pending and no audit event is recorded
    (the deferred function is not yet in place). Otherwise the phase is
    started exactly when no error is returned and start-failed when one is,
    the audit event with that outcome is the last thing logged, and the spec
    of the role (version, replica count) is as before. *)
Theorem install_sets_phase_from_outcome (db : Db) (world : World) :
  let db0 := set_Phase PhaseTidbPending db in
  match update db0 (plat world) with
  | (k, Some err) => install db world = Ok (mkWorld k (log world)) (db0, Some err)
  | (k, None) =>
      forall w' db' e,
        install db world = Ok w' (db', e) ->
        Phase (db_Status db')
        = match e with Some _ => PhaseTidbStartFailed | None => PhaseTidbStarted end
        /\ td_Spec (db_Tidb db') = td_Spec (db_Tidb db)
        /\ exists l, log w' = log world ++ l
                              ++ [ATrace (GetName db) "tidb/tidb" "install" e (installMessage db)]
  end.
Proof.
  cbn zeta. rewrite install_eq.
  destruct (update (set_Phase PhaseTidbPending db) (plat world)) as [k [err |]];
    [reflexivity |].
  intros w' db' e.
  destruct (installBody (set_Phase PhaseTidbPending db) (mkWorld k (log world)))
    as [w1 [d e1] | w1] eqn:Eb; [| discriminate].
  apply installBody_keeps in Eb as (_ & Hsp & _ & _ & [l Hl]). cbn in Hsp, Hl.
  cbn [fst snd]. intros [= <- <- <-].
  split; [destruct e1; reflexivity |]. split; [exact Hsp |].
  exists l. cbn [log logged]. rewrite Hl. unfold installMessage, td_Replicas. rewrite Hsp.
  rewrite <- app_assoc. reflexivity.
Qed.

(** X22. [uninstall] never panics. When it returns an error (the controller
    or the service could not be deleted) the cluster is exactly as it was.
    When it succeeds the members, the pod under upgrade, the migrate and
    scale states and both address lists are cleared, while the metadata, the
    phase, the spec and the stores are kept; the health gate of the
    uninstalled cluster panics (it has no status address), and a second
    successful uninstall changes nothing more. *)
Theorem uninstall_clears_or_leaves (db : Db) (ms : string) (w : World) :
  exists w' db' ms' e,
    uninstall db ms w = Ok w' (db', ms', e)
    /\ log w' = log w
    /\ match e with
       | Some _ => db' = db /\ ms' = ms
       | None =>
           ms' = ""
           /\ td_Members (db_Tidb db') = [] /\ td_cur (db_Tidb db') = ""
           /\ ScaleState (db_Status db') = 0
           /\ OuterAddresses (db_Status db') = [] /\ OuterStatusAddresses (db_Status db') = []
           /\ db_Metadata db' = db_Metadata db /\ Phase (db_Status db') = Phase (db_Status db)
           /\ td_Spec (db_Tidb db') = td_Spec (db_Tidb db) /\ db_Tikv db' = db_Tikv db
           /\ (forall w2, waitForOk db' w2 = Panic w2)
           /\ (forall w2 w3 r, uninstall db' ms' w2 = Ok w3 (r, None) -> r = (db', ms'))
       end.
Proof.
  unfold uninstall, bind, step, ret. cbn [plat log].
  destruct (DelRc ("tidb-" +:+ GetName db) (plat w)) as [k1 [err |]]; cbn [fst snd plat log].
  { eexists _, _, _, _. split; [reflexivity |]. cbn. auto. }
  destruct (DelSrvs ("tidb-" +:+ GetName db) k1) as [k2 [err |]]; cbn [fst snd plat log].
  { eexists _, _, _, _. split; [reflexivity |]. cbn. auto. }
  eexists _, _, _, _. split; [reflexivity |]. cbn [log]. split; [reflexivity |].
  cbn. repeat split.
  intros w2 w3 r.
  destruct (DelRc _ _) as [k3 [err |]]; cbn [fst snd plat log]; [discriminate |].
  destruct (DelSrvs _ _) as [k4 [err |]]; cbn [fst snd plat log]; [discriminate |].
  intros [= <- <-]. reflexivity.
Qed.

End InstallProperties.

(** ** Scenarios for the further properties *)

Section Scenarios2.
Import Toy Toy2 Watch Operator Install.

Lemma handle_added_inserts_witness :
  exists w',
    handleTidbEvent (G:=toy) watcher0 (mkEvent Added (c1 "100")) (start k0)
    = Ok (start k0) (w', None)
    /\ dbRVs w' !! "c1" = Some "100".
Proof.
  destruct (handle_added_inserts (G:=toy) watcher0 (mkEvent Added (c1 "100")) (start k0) eq_refl)
    as (w' & H & _ & Hrv & _).
  exists w'. split; [exact H | exact Hrv].
Defined.

Lemma handle_modified_replaces_witness :
  exists w',
    handleTidbEvent (G:=toy) watcher1 (mkEvent Modified (c1 "101")) (start k0)
    = Ok (mkWorld (G:=toy) k0 [AGc (Some (c1 "101")) (Some (c1 "101")) (Some NilPVProvisioner)])
         (w', None)
    /\ dom (dbs w') = dom (dbs watcher1).
Proof.
  destruct (handle_modified_replaces (G:=toy) watcher1 (mkEvent Modified (c1 "101")) (start k0)
              eq_refl (ex_intro _ (c1 "100") eq_refl))
    as (w' & H & _ & _ & Hd).
  exists w'. split; [exact H | exact Hd].
Defined.

Lemma handle_touches_own_name_only_witness :
  dbs (set_maps (<["c0" := c0]> (dbs watcher1)) (<["c0" := "1"]> (dbRVs watcher1)) watcher1)
    !! "c1"
  = dbs watcher1 !! "c1".
Proof.
  refine (proj1 (handle_touches_own_name_only (G:=toy) watcher1 _ (mkEvent Added c0)
                   (start k0) (start k0) None "c1" eq_refl _)).
  discriminate.
Defined.

Lemma dispatch_keeps_maps_in_step_witness :
  exists world' w',
    dispatch (G:=toy) watcher0 [mkEvent Added (c1 "100"); mkEvent Modified (c1 "101");
                                mkEvent Deleted c0] (start k0) = Ok world' w'
    /\ inStep w'.
Proof.
  destruct (dispatch (G:=toy) watcher0
              [mkEvent Added (c1 "100"); mkEvent Modified (c1 "101"); mkEvent Deleted c0]
              (start k0)) as [world' w' | world'] eqn:E; [| vm_compute in E; discriminate].
  exists world', w'. split; [reflexivity |].
  refine (proj1 (dispatch_keeps_maps_in_step (G:=toy) _ watcher0 w' (start k0) world' _ E)).
  split; [reflexivity |]. intros name db H. cbn in H. rewrite lookup_empty in H. discriminate.
Defined.

Lemma added_then_deleted_restores_witness :
  exists world' w',
    dispatch (G:=toy) watcher0 [mkEvent Added (c1 "100"); mkEvent Deleted (c1 "101")] (start k0)
    = Ok world' w'
    /\ dbs w' = dbs watcher0 /\ dbRVs w' = dbRVs watcher0.
Proof.
  exact (added_then_deleted_restores (G:=toy) watcher0 (mkEvent Added (c1 "100"))
           (mkEvent Deleted (c1 "101")) (start k0) eq_refl eq_refl eq_refl eq_refl eq_refl).
Defined.

Lemma relist_after_findAllDbs_is_stable_witness :
  exists w',
    findAllDbs (G:=toy) watcher0 (start k0) = Ok (mkWorld (G:=toy) k0Listed [AGetAllDbs]) (w', inr "7")
    /\ isDbsCacheUnstable w' [c1 "100"] = false.
Proof.
  exact (relist_after_findAllDbs_is_stable (G:=toy) watcher0 (start k0) k0Listed
           (mkDbList (mkMeta "" "7") [c1 "100"]) (fun _ => eq_refl) eq_refl
           (NoDup_singleton "c1") eq_refl).
Defined.

Lemma findAllDbs_only_adds_witness :
  exists w',
    findAllDbs (G:=toy) watcher1 (start k0) = Ok (mkWorld (G:=toy) k0Listed [AGetAllDbs]) (w', inr "7")
    /\ (inStep watcher1 -> inStep w').
Proof.
  pose proof (findAllDbs_only_adds (G:=toy) watcher1 (start k0)) as H. hnf in H.
  destruct H as (w' & H & _ & Hs). exists w'. split; [exact H | exact Hs].
Defined.

Lemma validated_config_selects_provisioner_witness :
  exists pv, pvProvisioner watcherSeeded = Some pv /\ pv = NilPVProvisioner.
Proof.
  destruct (validated_config_selects_provisioner (G:=toy) watcher0 watcherSeeded (start k0)
              listed "7" eq_refl eq_refl) as (pv & Hp & Hn & _).
  exists pv. split; [exact Hp | apply Hn; reflexivity].
Defined.

Lemma unsupported_provisioner_panics_witness :
  Run (G:=toy) 1 watcherNfs (start k0) = Panic listed.
Proof.
  refine (unsupported_provisioner_panics (G:=toy) 1 watcherNfs
            (seed (G:=toy) watcherNfs [c1 "100"]) (start k0) listed "7" _ eq_refl eq_refl).
  discriminate.
Defined.

Lemma recycle_passes_all_known_stores_witness :
  exists pv all,
    log (mkWorld (G:=toy) k0 [AClean NilPVProvisioner [mkStore "tikv-c1-001" false]])
    = log (start k0) ++ [AClean pv all]
    /\ mkStore "tikv-c1-001" false ∈ all.
Proof.
  destruct (recycle_passes_all_known_stores (G:=toy) watcher1 (start k0) _ None eq_refl)
    as (pv & all & Hl & Hall).
  exists pv, all. split; [exact Hl |].
  apply Hall. exists "c1", (c1 "100"). split; [reflexivity |]. left.
Defined.

Lemma cleanClusters_sweeps_every_cluster_witness :
  exists (world' : World) (l : list Action),
    cleanClusters (G:=toy) watcher1 (start k0) = Ok world' tt
    /\ ADeleteBuriedTikv (c1 "100") ∈ l.
Proof.
  destruct (cleanClusters_sweeps_every_cluster (G:=toy) watcher1 (start k0))
    as (world' & l & Hrun & _ & _ & Hall).
  exists world', l. split; [exact Hrun |]. apply (Hall "c1"). reflexivity.
Defined.


Lemma upgrade_without_status_address_panics_witness :
  upgrade (G:=toy) c1bare (start k0)
  = Panic (mkWorld (G:=toy) k0
             [AUpgradeRC "tidb-c1" "registry.local/tidb:v2" "v2"; AGetPods "c1" "tidb";
              ADeletePods "tidb-c1-a"; ASleep (8 * Second);
              ATrace "c1" "tidb/tidb" "upgrate" None "Upgrate tidb to version: v2"]).
Proof.
  exact (upgrade_without_status_address_panics (G:=toy) c1bare (start k0) k0 k0 k0 []
           [pod "tidb-c1-b" "v2"; pod "tidb-c1-c" "v1"] (pod "tidb-c1-a" "v1")
           (Z.le_refl 6) eq_refl eq_refl eq_refl (List.Forall_nil _) eq_refl eq_refl).
Defined.

Lemma failed_gate_leaves_cluster_witness :
  exists w' db' e,
    waitForOk (G:=toy) (c1 "100") (start kNoStatus) = Ok w' (db', Some e) /\ db' = c1 "100".
Proof.
  destruct (waitForOk (G:=toy) (c1 "100") (start kNoStatus)) as [w' [db' [e |]] | w'] eqn:E;
    [| vm_compute in E; discriminate | vm_compute in E; discriminate].
  exists w', db', e. split; [reflexivity |].
  exact (failed_gate_leaves_cluster (G:=toy) (c1 "100") db' (start kNoStatus) w' (Some e) E).
Defined.

Lemma upgrade_resets_cur_and_keeps_cluster_witness :
  exists w' db' e,
    upgrade (G:=toy) (c1 "100") (start k0) = Ok w' (db', e) /\ td_cur (db_Tidb db') = "".
Proof.
  destruct (upgrade (G:=toy) (c1 "100") (start k0)) as [w' [db' e] | w'] eqn:E;
    [| vm_compute in E; discriminate].
  exists w', db', e. split; [reflexivity |].
  exact (proj1 (upgrade_resets_cur_and_keeps_cluster (G:=toy) (c1 "100") db' (start k0) w' e E)).
Defined.

Lemma upgrade_with_nothing_to_do_witness :
  upgrade (G:=toy) (c1 "100") (start kUpToDate)
  = Ok (mkWorld (G:=toy) kUpToDate
          [AUpgradeRC "tidb-c1" "registry.local/tidb:v2" "v2"; AGetPods "c1" "tidb"])
       (c1 "100", None).
Proof.
  refine (upgrade_with_nothing_to_do (G:=toy) (c1 "100") (start kUpToDate) kUpToDate kUpToDate
            _ (Z.le_refl 6) eq_refl eq_refl _).
  repeat constructor.
Defined.

Lemma upgrade_fails_before_any_pod_witness :
  upgrade (G:=toy) (c1 "100") (start kNoList)
  = Ok (mkWorld (G:=toy) kNoList
          [AUpgradeRC "tidb-c1" "registry.local/tidb:v2" "v2"; AGetPods "c1" "tidb";
           ATrace "c1" "tidb/tidb" "upgrate" (Some "apiserver down")
                  "Upgrate tidb to version: v2"])
       (c1 "100", Some "apiserver down").
Proof.
  pose proof (upgrade_fails_before_any_pod (G:=toy) (c1 "100") (start kNoList) (Z.le_refl 6))
    as H.
  hnf in H. exact (H kNoList "apiserver down" eq_refl).
Defined.

(** Two pods are down and deletions are refused: the recheck asks for the
    first deletion only, and returns its error. *)
Lemma checkStatus_deletes_pods_not_ok_witness :
  exists world',
    checkStatus (G:=toy) (c1 "100") (start kTwoDown) = Ok world' (Some "forbidden")
    /\ log world' = [AGetPods "c1" "tidb"; ADeletePods "tidb-c1-a"].
Proof.
  pose proof (checkStatus_deletes_pods_not_ok (G:=toy) (c1 "100") (start kTwoDown)) as H.
  hnf in H. destruct H as (world' & e & deleted & Hrun & _).
  vm_compute in Hrun. injection Hrun as <- <-.
  eexists. split; vm_compute; reflexivity.
Defined.

Lemma scale_error_bits_are_sticky_witness :
  exists w' db' e,
    reconcileTidbs (G:=toy) (c1 "100") 10 (start k0) = Ok w' (db', Some e)
    /\ Z.land (ScaleState (db_Status db')) 4 = 4.
Proof.
  destruct (reconcileTidbs (G:=toy) (c1 "100") 10 (start k0)) as [w' [db' [e |]] | w'] eqn:E;
    [| vm_compute in E; discriminate | vm_compute in E; discriminate].
  exists w', db', e. split; [reflexivity |].
  refine (proj2 (proj2 (scale_error_bits_are_sticky (G:=toy) (c1 "100") db' 10 (start k0) w'
                          (Some e) E)) _ _ _).
  - lia.
  - discriminate.
  - discriminate.
Defined.

Lemma createService_appends_addresses_witness :
  exists w' d,
    createService (I:=toyInstaller) c1bare (start k0) = Ok w' (d, None)
    /\ OuterStatusAddresses (db_Status d) <> [].
Proof.
  destruct (createService (I:=toyInstaller) c1bare (start k0)) as [w' [d [e |]] | w'] eqn:E;
    [vm_compute in E; discriminate | | vm_compute in E; discriminate].
  exists w', d. split; [reflexivity |].
  exact (proj2 (proj2 (proj2 (createService_appends_addresses (I:=toyInstaller) c1bare d
                                (start k0) w' E)))).
Defined.

Lemma install_sets_phase_from_outcome_witness :
  exists w' db',
    install (I:=toyInstaller) c1bare (start k0) = Ok w' (db', None)
    /\ Phase (db_Status db') = 6.
Proof.
  destruct (install (I:=toyInstaller) c1bare (start k0)) as [w' [db' [e |]] | w'] eqn:E;
    [vm_compute in E; discriminate | | vm_compute in E; discriminate].
  exists w', db'. split; [reflexivity |].
  pose proof (install_sets_phase_from_outcome (I:=toyInstaller) c1bare (start k0)) as H.
  hnf in H. exact (proj1 (H w' db' None E)).
Defined.

Lemma uninstall_clears_or_leaves_witness :
  exists w' db' ms' e,
    uninstall (I:=toyInstaller) (c1 "100") "migrating" (start k0) = Ok w' (db', ms', e)
    /\ log w' = [].
Proof.
  destruct (uninstall_clears_or_leaves (I:=toyInstaller) (c1 "100") "migrating" (start k0))
    as (w' & db' & ms' & e & H & Hl & _).
  exists w', db', ms', e. split; [exact H | exact Hl].
Defined.

End Scenarios2.
